(** * Simulated annealing for MaxCut: a shallow embedding

    The development embeds the two functions of
    [Modules/Applications/MaxCut Algorithms/simulated_annealing.ipynb],
    [temperature_decay] and [simulated_annealing], and checks the
    statements of the specification against them.

    Modelling conventions.
    - Python floats are idealised as real numbers ([R]); [np.exp] is the
      real exponential.  True division raises [ZeroDivisionError] on a zero
      divisor, as Python's [/] does.
    - Python lists of labels are mutable objects: they live in a heap and
      the program variables hold references.  [copy.deepcopy] allocates.
    - The two random generators used by the notebook (numpy's global
      generator behind [np.random.randint] and the [random] module behind
      [random.random]) are streams of draws; the machine state records how
      many draws of each stream have been consumed.
    - [obj_maxcut] and [read_nxgraph] are imported from [util], which is
      not among the sources; [obj_maxcut] follows the evaluator contract of
      the specification, and a graph is a node count with weighted edges.
    - [print] and [time.time] in [simulated_annealing] do not influence the
      returned values and are left out. *)

From Stdlib Require Import ZArith List Reals Lra Lia.
From stdpp Require Import base option list.

(** ** Exceptions and results *)

(** The Python exceptions the program can raise.  [DimensionMismatch] is
    the evaluator's error; [SystemError] stands for a dangling reference,
    which no run produces (see [simulated_annealing_no_SystemError]). *)
Inductive exn : Type :=
  | NameError
  | ZeroDivisionError
  | ValueError
  | IndexError
  | DimensionMismatch
  | SystemError.

Inductive result (A : Type) : Type :=
  | Ok (a : A)
  | Raise (e : exn).
Arguments Ok {A} a.
Arguments Raise {A} e.

(** ** Graphs and the objective *)

(** A graph as the engine sees it: a node count and weighted edges. *)
Record Graph : Type := MkGraph {
  nodeCount : nat;
  edges : list (nat * nat * R)
}.

Definition number_of_nodes (graph : Graph) : nat := nodeCount graph.

(** Labels are Python ints; a partition label is [0] or [1]. *)
Definition is_label (x : Z) : Prop := x = 0%Z \/ x = 1%Z.

(** One edge's contribution, added to the running objective. *)
Definition add_edge (solution : list Z) (acc : result R) (e : nat * nat * R)
  : result R :=
  match acc with
  | Raise err => Raise err
  | Ok obj =>
      let '(u, v, w) := e in
      match solution !! u, solution !! v with
      | Some a, Some b => Ok (if Z.eqb a b then obj else (obj + w)%R)
      | _, _ => Raise IndexError
      end
  end.

(** Modelled from the spec: [obj_maxcut] is imported from [util], which is
    not part of the sources.  Following the evaluator contract, the
    solution length must equal the node count ([DimensionMismatch]
    otherwise), and the value is the sum over every edge [(u, v, w)] of [w]
    if [solution[u] != solution[v]], else [0]. *)
Definition obj_maxcut (solution : list Z) (graph : Graph) : result R :=
  if Nat.eqb (length solution) (nodeCount graph)
  then fold_left (add_edge solution) (edges graph) (Ok 0%R)
  else Raise DimensionMismatch.

(** ** Machine state *)

Definition loc : Type := nat.

Record machine : Type := Machine {
  heap : list (list Z);   (* list objects, addressed by allocation order *)
  np_pos : nat;           (* draws consumed from numpy's generator *)
  py_pos : nat;           (* draws consumed from the [random] module *)
  evals : nat             (* calls made to [obj_maxcut] *)
}.

(** A value of [random.random()]: a real in the half-open unit interval. *)
Record unit_interval : Type := MkUnit {
  uval : R;
  uval_range : (0 <= uval < 1)%R
}.

(** The draws the two generators will deliver, in order. *)
Record generators : Type := Generators {
  np_stream : nat -> nat;
  py_stream : nat -> unit_interval
}.

(** Module-level variables of the notebook read by the functions.  The
    [__main__] cell assigns [init_temperature]; before that it is unbound. *)
Record globals : Type := Globals {
  init_temperature : option R
}.

(** ** The state-and-exception monad *)

Definition M (A : Type) : Type := machine -> result (A * machine).

Definition ret {A} (a : A) : M A := fun m => Ok (a, m).

Definition raise {A} (e : exn) : M A := fun _ => Raise e.

Definition bind {A B} (c : M A) (f : A -> M B) : M B :=
  fun m => match c m with
           | Ok (a, m') => f a m'
           | Raise e => Raise e
           end.

Notation "x <- c ;; k" := (bind c (fun x => k))
  (at level 100, c at next level, right associativity).

Definition lift {A} (r : result A) : M A :=
  fun m => match r with Ok a => Ok (a, m) | Raise e => Raise e end.

(** [for x in xs: s = body(s, x)] *)
Fixpoint for_each {A St} (xs : list A) (body : St -> A -> M St) (s : St) : M St :=
  match xs with
  | [] => ret s
  | x :: xs' => s' <- body s x ;; for_each xs' body s'
  end.

(** [range(n)]: empty when [n <= 0]. *)
Definition range (n : Z) : list Z := map Z.of_nat (seq 0 (Z.to_nat n)).

(** ** Python primitives *)

(** [a / b] on floats. *)
Definition truediv (a b : R) : M R :=
  if Req_EM_T b 0%R then raise ZeroDivisionError else ret (a / b)%R.

(** Allocation of a fresh list object. *)
Definition alloc (v : list Z) : M loc :=
  fun m => Ok (length (heap m),
               Machine (heap m ++ [v]) (np_pos m) (py_pos m) (evals m)).

Definition load (l : loc) : M (list Z) :=
  fun m => match heap m !! l with
           | Some v => Ok (v, m)
           | None => Raise SystemError
           end.

Definition store (l : loc) (v : list Z) : M unit :=
  fun m => Ok (tt, Machine (<[l := v]> (heap m)) (np_pos m) (py_pos m) (evals m)).

(** [copy.deepcopy(l)] for a list of ints. *)
Definition deepcopy (l : loc) : M loc := v <- load l ;; alloc v.

(** [len(l)] *)
Definition len (l : loc) : M nat := v <- load l ;; ret (length v).

(** [l[i]] for a non-negative index. *)
Definition getitem (l : loc) (i : nat) : M Z :=
  v <- load l ;;
  match v !! i with
  | Some x => ret x
  | None => raise IndexError
  end.

(** [l[i] = x] for a non-negative index. *)
Definition setitem (l : loc) (i : nat) (x : Z) : M unit :=
  v <- load l ;;
  if Nat.ltb i (length v) then store l (<[i := x]> v) else raise IndexError.

(** [obj_maxcut(l, graph)]: the evaluator reads the list and is counted. *)
Definition call_obj_maxcut (l : loc) (graph : Graph) : M R :=
  v <- load l ;;
  _ <- (fun m => Ok (tt, Machine (heap m) (np_pos m) (py_pos m) (S (evals m)))) ;;
  lift (obj_maxcut v graph).

(** The small constant of the acceptance formula. *)
Definition eps : R := 1e-6%R.

Section Engine.

Variable G : globals.
Variable gen : generators.

(** Reading the module-level [init_temperature]. *)
Definition global_init_temperature : M R :=
  match init_temperature G with
  | Some t => ret t
  | None => raise NameError
  end.

(** [np.random.randint(low, high)]: a draw in [[low, high)], [ValueError]
    when the interval is empty. *)
Definition randint (low high : nat) : M nat :=
  if Nat.ltb low high
  then fun m => Ok (low + np_stream gen (np_pos m) mod (high - low),
                    Machine (heap m) (S (np_pos m)) (py_pos m) (evals m))
  else raise ValueError.

(** [random.random()] *)
Definition random : M R :=
  fun m => Ok (uval (py_stream gen (py_pos m)),
               Machine (heap m) (np_pos m) (S (py_pos m)) (evals m)).

(** ** [temperature_decay] *)

(** The local variables that the loop of [temperature_decay] updates. *)
Record locals : Type := Locals {
  curr_solution : loc;
  curr_score : R;
  scores : list R
}.

(** [[0] * int(N / 2) + [1] * int(N / 2)] *)
Definition init_solution (graph : Graph) : list Z :=
  replicate (number_of_nodes graph / 2) 0%Z
  ++ replicate (number_of_nodes graph / 2) 1%Z.

(** [temperature = init_temperature * (1 - (k + 1) / num_steps)] *)
Definition temperature (num_steps k : Z) : M R :=
  t0 <- global_init_temperature ;;
  q <- truediv (IZR (k + 1)) (IZR num_steps) ;;
  ret (t0 * (1 - q))%R.

(** The proposal:
    [new_solution = copy.deepcopy(curr_solution)],
    [idx = np.random.randint(0, num_nodes)],
    [new_solution[idx] = (new_solution[idx] + 1) % 2],
    [new_score = obj_maxcut(new_solution, graph)]. *)
Definition propose (num_nodes : nat) (graph : Graph) (st : locals)
  : M (loc * R) :=
  new_solution <- deepcopy (curr_solution st) ;;
  idx <- randint 0 num_nodes ;;
  x <- getitem new_solution idx ;;
  _ <- setitem new_solution idx ((x + 1) mod 2)%Z ;;
  new_score <- call_obj_maxcut new_solution graph ;;
  ret (new_solution, new_score).

(** The rest of the body: [scores.append(new_score)],
    [delta_e = curr_score - new_score], then the test
    [if delta_e < 0: ... else: prob = np.exp(- delta_e / (temperature + 1e-6));
     if prob > random.random(): ...], where both accepting branches assign
    [curr_solution = new_solution] and [curr_score = new_score]. *)
Definition accept (temp : R) (new_solution : loc) (new_score : R)
    (st : locals) : M locals :=
  let scores' := scores st ++ [new_score] in
  let delta_e := (curr_score st - new_score)%R in
  if Rlt_dec delta_e 0%R
  then ret (Locals new_solution new_score scores')
  else
    d <- truediv (- delta_e)%R (temp + eps)%R ;;
    let prob := exp d in
    u <- random ;;
    if Rgt_dec prob u
    then ret (Locals new_solution new_score scores')
    else ret (Locals (curr_solution st) (curr_score st) scores').

(** The body of [for k in range(num_steps)]. *)
Definition loop_body (num_steps : Z) (num_nodes : nat) (graph : Graph)
    (st : locals) (k : Z) : M locals :=
  temp <- temperature num_steps k ;;
  cand <- propose num_nodes graph st ;;
  let '(new_solution, new_score) := cand in
  accept temp new_solution new_score st.

(** The statements before the loop:
    [init_solution = [0] * int(N / 2) + [1] * int(N / 2)],
    [curr_solution = copy.deepcopy(init_solution)],
    [curr_score = obj_maxcut(curr_solution, graph)],
    [init_score = curr_score], [num_nodes = len(init_solution)],
    [scores = []].  Returns [num_nodes], [init_score] and the locals. *)
Definition setup (graph : Graph) : M (nat * R * locals) :=
  init_sol <- alloc (init_solution graph) ;;
  curr_sol <- deepcopy init_sol ;;
  score <- call_obj_maxcut curr_sol graph ;;
  let init_score := score in
  num_nodes <- len init_sol ;;
  ret (num_nodes, init_score, Locals curr_sol score []).

(** The function stopped at the entry of iteration [j] of its loop (for
    [j] at least the number of iterations: when the loop is left); see
    [iterate_succ] and [temperature_decay_iterate]. *)
Definition iterate (num_steps : Z) (graph : Graph) (j : nat)
  : M (nat * R * locals) :=
  ini <- setup graph ;;
  let '(num_nodes, init_score, st0) := ini in
  st <- for_each (take j (range num_steps))
                 (loop_body num_steps num_nodes graph) st0 ;;
  ret (num_nodes, init_score, st).

(** [temperature_decay(num_steps, graph)], returning
    [scores, init_score, curr_score, curr_solution]. *)
Definition temperature_decay (num_steps : Z) (graph : Graph)
  : M (list R * R * R * loc) :=
  ini <- setup graph ;;
  let '(num_nodes, init_score, st0) := ini in
  st <- for_each (range num_steps)
                 (loop_body num_steps num_nodes graph) st0 ;;
  ret (scores st, init_score, curr_score st, curr_solution st).

(** ** [simulated_annealing] *)

(** [simulated_annealing(init_temperature, num_steps, graph)], returning
    [curr_score, curr_solution, scores].  The parameter [init_temperature]
    is not passed on: the call is [temperature_decay(num_steps, graph)]. *)
Definition simulated_annealing (init_temperature : R) (num_steps : Z)
    (graph : Graph) : M (R * loc * list R) :=
  out <- temperature_decay num_steps graph ;;
  let '(scores, init_score, curr_score, curr_solution) := out in
  ret (curr_score, curr_solution, scores).

End Engine.

(** What a caller sees of a finished call: the returned score, the contents
    of the returned solution list, and the trace. *)
Definition observe (r : result (R * loc * list R * machine))
  : result (R * list Z * list R) :=
  match r with
  | Ok (score, sol, trace, m) =>
      match heap m !! sol with
      | Some v => Ok (score, v, trace)
      | None => Raise SystemError
      end
  | Raise e => Raise e
  end.

(** The machine in which nothing has been allocated or drawn yet. *)
Definition fresh : machine := Machine [] 0 0 0.

(** ** Auxiliary definitions for the statements *)

Section Auxiliary.

Variable G : globals.
Variable gen : generators.

(** The index drawn and the list obtained by flipping it. *)
Definition drawn_index (num_nodes p : nat) : nat :=
  np_stream gen p mod num_nodes.

Definition flipped (cur : list Z) (idx : nat) : list Z :=
  match cur !! idx with
  | Some x => <[idx := ((x + 1) mod 2)%Z]> cur
  | None => cur
  end.

(** The locals after an accepted and after a rejected candidate, and the
    machine after one call of [random.random()]. *)
Definition accepted (new_solution : loc) (new_score : R) (st : locals) : locals :=
  Locals new_solution new_score (scores st ++ [new_score]).

Definition kept (new_score : R) (st : locals) : locals :=
  Locals (curr_solution st) (curr_score st) (scores st ++ [new_score]).

Definition drew (m : machine) : machine :=
  Machine (heap m) (np_pos m) (S (py_pos m)) (evals m).

(** One iteration, summarised on values.
    What one iteration computes from the contents [cur] of the current
    solution, the current score and the generators' positions: the
    candidate, its score, whether it was accepted and whether
    [random.random()] was called. *)

Definition step_summary (num_steps : Z) (num_nodes : nat) (graph : Graph)
    (cur : list Z) (cs : R) (k : Z) (np py : nat)
  : result (list Z * R * bool * bool) :=
  match init_temperature G with
  | None => Raise NameError
  | Some t0 =>
      if Req_EM_T (IZR num_steps) 0%R then Raise ZeroDivisionError
      else
        let temp := (t0 * (1 - IZR (k + 1) / IZR num_steps))%R in
        if Nat.eqb num_nodes 0 then Raise ValueError
        else
          let idx := drawn_index num_nodes np in
          if Nat.ltb idx (length cur) then
            let cand := flipped cur idx in
            match obj_maxcut cand graph with
            | Raise e => Raise e
            | Ok sc =>
                if Rlt_dec (cs - sc) 0%R then Ok (cand, sc, true, false)
                else if Req_EM_T (temp + eps) 0%R then Raise ZeroDivisionError
                else if Rgt_dec (exp (- (cs - sc) / (temp + eps)))
                                (uval (py_stream gen py))
                     then Ok (cand, sc, true, true)
                     else Ok (cand, sc, false, true)
            end
          else Raise IndexError
  end.

Definition commit (st : locals) (m : machine)
    (s : list Z * R * bool * bool) : locals * machine :=
  let '(cand, sc, acc, dr) := s in
  (if acc then accepted (length (heap m)) sc st else kept sc st,
   Machine (heap m ++ [cand]) (S (np_pos m))
           (if dr then S (py_pos m) else py_pos m) (S (evals m))).

(** The loop invariant: the current solution is a live list of
    [num_nodes] labels whose objective value is the recorded score. *)
Definition Inv (graph : Graph) (num_nodes : nat) (st : locals) (m : machine)
  : Prop :=
  exists cur,
    heap m !! curr_solution st = Some cur /\
    length cur = num_nodes /\
    Forall is_label cur /\
    obj_maxcut cur graph = Ok (curr_score st).

End Auxiliary.

(** Two runs see the same draws and agree on everything a caller can
    observe, although their heaps and references may differ. *)
Definition Sim (gen gen' : generators)
    (st : locals) (m : machine) (st' : locals) (m' : machine) : Prop :=
  curr_score st = curr_score st' /\
  scores st = scores st' /\
  (exists cur, heap m !! curr_solution st = Some cur /\
               heap m' !! curr_solution st' = Some cur) /\
  (forall i, np_stream gen (np_pos m + i) = np_stream gen' (np_pos m' + i)) /\
  (forall i, uval (py_stream gen (py_pos m + i))
             = uval (py_stream gen' (py_pos m' + i))).

(** Two results agree: the same exception, or related states. *)
Definition agree (gen gen' : generators)
    (r : result (locals * machine)) (r' : result (locals * machine)) : Prop :=
  match r, r' with
  | Ok (st, m), Ok (st', m') => Sim gen gen' st m st' m'
  | Raise e, Raise e' => e = e'
  | _, _ => False
  end.

(** Every edge joins two nodes of the graph. *)
Definition graph_wf (graph : Graph) : Prop :=
  Forall (fun e : nat * nat * R =>
            fst (fst e) < nodeCount graph /\ snd (fst e) < nodeCount graph)
         (edges graph).

(** The number of positions at which two lists of labels differ. *)
Fixpoint hamming (a b : list Z) : nat :=
  match a, b with
  | x :: a', y :: b' => (if Z.eqb x y then 0 else 1) + hamming a' b'
  | _, _ => 0
  end.

(** The [__main__] cell of the notebook: [init_temperature = 4],
    [num_steps = 2000], then
    [simulated_annealing(init_temperature, num_steps, graph)].  The graph
    is the value of [read_nxgraph('./data/gset_14.txt')]; [read_nxgraph]
    is not among the sources, so its result is a parameter. *)
Definition main (gen : generators) (graph : Graph) : M (R * loc * list R) :=
  simulated_annealing (Globals (Some 4%R)) gen 4 2000 graph.

(** ** Concrete graphs, generators and states *)

(** The 4-cycle with unit weights. *)
Definition cycle4 : Graph :=
  MkGraph 4 [(0, 1, 1%R); (1, 2, 1%R); (2, 3, 1%R); (3, 0, 1%R)].

(** A single edge. *)
Definition pair : Graph := MkGraph 2 [(0, 1, 1%R)].

(** A path on three nodes. *)
Definition path3 : Graph := MkGraph 3 [(0, 1, 1%R); (1, 2, 1%R)].

(** The graph without nodes. *)
Definition empty_graph : Graph := MkGraph 0 [].

Definition half_in_unit : (0 <= 1 / 2 < 1)%R.
Proof. lra. Qed.

Definition half : unit_interval := MkUnit (1 / 2)%R half_in_unit.

(** [randint] always draws index 0; [random.random()] always returns 1/2. *)
Definition gen_zero : generators := Generators (fun _ => 0) (fun _ => half).

(** [randint] draws 0, 1, 2, ... (reduced into range). *)
Definition gen_count : generators := Generators (fun p => p) (fun _ => half).

(** The notebook's [__main__] cell binds [init_temperature = 4]. *)
Definition G4 : globals := Globals (Some 4%R).

(** The module before [init_temperature] is assigned. *)
Definition G_unbound : globals := Globals None.

(** The 4-cycle after initialisation from [fresh], and after one iteration
    in which index 0 was flipped and the tie accepted. *)
Definition st_cycle4 : locals := Locals 1 2 [].
Definition m_cycle4 : machine :=
  Machine [[0; 0; 1; 1]; [0; 0; 1; 1]]%Z 0 0 1.
Definition st_cycle4' : locals := Locals 2 2 [2%R].
Definition m_cycle4' : machine :=
  Machine [[0; 0; 1; 1]; [0; 0; 1; 1]; [1; 0; 1; 1]]%Z 1 1 2.

(** The single edge after initialisation from [fresh], and after one
    iteration in which the flip of index 0 was rejected. *)
Definition st_pair : locals := Locals 1 1 [].
Definition m_pair : machine := Machine [[0; 1]; [0; 1]]%Z 0 0 1.
Definition st_pair' : locals := Locals 1 1 [0%R].
Definition m_pair' : machine := Machine [[0; 1]; [0; 1]; [1; 1]]%Z 1 1 2.

(** A second call on the 4-cycle, started in the machine that the first
    call left behind, with the counting generator: after its initialisation
    and after its single iteration, in which index 1 was flipped. *)
Definition st_again : locals := Locals 4 2 [].
Definition m_again : machine :=
  Machine [[0; 0; 1; 1]; [0; 0; 1; 1]; [1; 0; 1; 1];
           [0; 0; 1; 1]; [0; 0; 1; 1]]%Z 1 1 3.
Definition m_again' : machine :=
  Machine [[0; 0; 1; 1]; [0; 0; 1; 1]; [1; 0; 1; 1];
           [0; 0; 1; 1]; [0; 0; 1; 1]; [0; 1; 1; 1]]%Z 2 2 4.

(** * Properties *)

(** ** The monad *)

Lemma bind_Ok {A B} (c : M A) (f : A -> M B) m b m' :
  bind c f m = Ok (b, m') ->
  exists a m1, c m = Ok (a, m1) /\ f a m1 = Ok (b, m').
Proof.
  unfold bind. destruct (c m) as [[a m1]|e]; [|discriminate].
  intros H. exists a, m1. split; [reflexivity | exact H].
Qed.

Lemma bind_eq_Ok {A B} (c : M A) (f : A -> M B) m a m1 :
  c m = Ok (a, m1) -> bind c f m = f a m1.
Proof. unfold bind. intros ->. reflexivity. Qed.

Lemma bind_eq_Raise {A B} (c : M A) (f : A -> M B) m e :
  c m = Raise e -> bind c f m = Raise e.
Proof. unfold bind. intros ->. reflexivity. Qed.

(** ** Primitives *)

Lemma eps_pos : (0 < eps)%R.
Proof. unfold eps. lra. Qed.

Lemma truediv_ok a b m : b <> 0%R -> truediv a b m = Ok ((a / b)%R, m).
Proof. intros Hb. unfold truediv. destruct (Req_EM_T b 0); [contradiction | reflexivity]. Qed.

Lemma truediv_zero a b m : b = 0%R -> truediv a b m = Raise ZeroDivisionError.
Proof. intros Hb. unfold truediv. destruct (Req_EM_T b 0); [reflexivity | contradiction]. Qed.

Lemma truediv_Ok_inv a b m q m' :
  truediv a b m = Ok (q, m') -> b <> 0%R /\ q = (a / b)%R /\ m' = m.
Proof.
  unfold truediv. destruct (Req_EM_T b 0); [discriminate|].
  unfold ret. intros [= <- <-]. auto.
Qed.

Lemma insert_last (h : list (list Z)) (v w : list Z) :
  <[length h := w]> (h ++ [v]) = h ++ [w].
Proof.
  rewrite insert_app_r_alt by lia. rewrite Nat.sub_diag. reflexivity.
Qed.

Lemma lookup_last (h : list (list Z)) (v : list Z) :
  (h ++ [v]) !! length h = Some v.
Proof. rewrite lookup_app_r by lia. rewrite Nat.sub_diag. reflexivity. Qed.

Lemma length_snoc (h : list (list Z)) (v : list Z) :
  length (h ++ [v]) = S (length h).
Proof. rewrite length_app. cbn. lia. Qed.

Lemma lookup_last2 (h : list (list Z)) (v w : list Z) :
  ((h ++ [v]) ++ [w]) !! S (length h) = Some w.
Proof. rewrite <- (length_snoc h v). apply lookup_last. Qed.

Lemma lookup_last1 (h : list (list Z)) (v w : list Z) :
  ((h ++ [v]) ++ [w]) !! length h = Some v.
Proof.
  rewrite lookup_app_l by (rewrite length_snoc; lia). apply lookup_last.
Qed.

Lemma load_eq l m v : heap m !! l = Some v -> load l m = Ok (v, m).
Proof. unfold load. intros ->. reflexivity. Qed.

Lemma deepcopy_eq l m v :
  heap m !! l = Some v ->
  deepcopy l m =
    Ok (length (heap m), Machine (heap m ++ [v]) (np_pos m) (py_pos m) (evals m)).
Proof.
  intros H. unfold deepcopy. rewrite (bind_eq_Ok _ _ _ _ _ (load_eq _ _ _ H)).
  reflexivity.
Qed.

Lemma len_eq l m v : heap m !! l = Some v -> len l m = Ok (length v, m).
Proof.
  intros H. unfold len. rewrite (bind_eq_Ok _ _ _ _ _ (load_eq _ _ _ H)).
  reflexivity.
Qed.

Lemma getitem_eq l i m v x :
  heap m !! l = Some v -> v !! i = Some x -> getitem l i m = Ok (x, m).
Proof.
  intros H Hx. unfold getitem.
  rewrite (bind_eq_Ok _ _ _ _ _ (load_eq _ _ _ H)), Hx. reflexivity.
Qed.

Lemma getitem_out_of_range l i m v :
  heap m !! l = Some v -> length v <= i -> getitem l i m = Raise IndexError.
Proof.
  intros H Hi. unfold getitem.
  rewrite (bind_eq_Ok _ _ _ _ _ (load_eq _ _ _ H)).
  rewrite (lookup_ge_None_2 _ _ Hi). reflexivity.
Qed.

Lemma setitem_eq l i x m v :
  heap m !! l = Some v -> i < length v ->
  setitem l i x m =
    Ok (tt, Machine (<[l := <[i := x]> v]> (heap m)) (np_pos m) (py_pos m) (evals m)).
Proof.
  intros H Hi. unfold setitem.
  rewrite (bind_eq_Ok _ _ _ _ _ (load_eq _ _ _ H)).
  destruct (Nat.ltb_spec i (length v)) as [_|]; [reflexivity | lia].
Qed.

Lemma call_obj_maxcut_eq l graph m v :
  heap m !! l = Some v ->
  call_obj_maxcut l graph m =
    match obj_maxcut v graph with
    | Ok sc => Ok (sc, Machine (heap m) (np_pos m) (py_pos m) (S (evals m)))
    | Raise e => Raise e
    end.
Proof.
  intros H. unfold call_obj_maxcut.
  rewrite (bind_eq_Ok _ _ _ _ _ (load_eq _ _ _ H)).
  unfold bind, lift. destruct (obj_maxcut v graph); reflexivity.
Qed.

(** ** Flipping one label *)

Lemma flip_is_label (x : Z) : is_label ((x + 1) mod 2)%Z.
Proof.
  unfold is_label.
  pose proof (Z.mod_pos_bound (x + 1) 2 ltac:(lia)). lia.
Qed.

Lemma flip_changes (x : Z) : is_label x -> ((x + 1) mod 2)%Z <> x.
Proof. intros [-> | ->]; discriminate. Qed.

Lemma flipped_length (cur : list Z) idx : length (flipped cur idx) = length cur.
Proof.
  unfold flipped. destruct (cur !! idx); [apply length_insert | reflexivity].
Qed.

Lemma flipped_labels (cur : list Z) idx :
  Forall is_label cur -> Forall is_label (flipped cur idx).
Proof.
  intros H. unfold flipped. destruct (cur !! idx); [|exact H].
  apply Forall_insert; [exact H | apply flip_is_label].
Qed.

(** The flipped list differs from the original at [idx] and nowhere else. *)
Lemma flipped_differs (cur : list Z) idx :
  Forall is_label cur -> idx < length cur ->
  forall i, flipped cur idx !! i = cur !! i <-> i <> idx.
Proof.
  intros Hlab Hidx i. unfold flipped.
  destruct (lookup_lt_is_Some_2 _ _ Hidx) as [x Hx]. rewrite Hx.
  assert (Hxl : is_label x).
  { exact (Forall_lookup_1 _ _ _ _ Hlab Hx). }
  split.
  - intros Heq ->. rewrite list_lookup_insert_eq in Heq by exact Hidx.
    rewrite Hx in Heq. injection Heq as Heq.
    exact (flip_changes x Hxl Heq).
  - intros Hne. apply list_lookup_insert_ne. congruence.
Qed.

(** ** The objective *)

Lemma fold_add_edge_errors solution es acc e :
  fold_left (add_edge solution) es acc = Raise e ->
  acc = Raise e \/ e = IndexError.
Proof.
  revert acc. induction es as [|[[u v] w] es IH]; intros acc H.
  - left. exact H.
  - cbn [fold_left] in H. apply IH in H. destruct H as [H|H]; [|right; exact H].
    destruct acc as [obj|e']; [|left; exact H].
    right. cbn in H.
    destruct (solution !! u); [destruct (solution !! v)|]; congruence.
Qed.

(** The evaluator raises nothing but its two own errors. *)
Lemma obj_maxcut_errors solution graph e :
  obj_maxcut solution graph = Raise e ->
  e = DimensionMismatch \/ e = IndexError.
Proof.
  unfold obj_maxcut. destruct (Nat.eqb _ _).
  - intros H. apply fold_add_edge_errors in H.
    destruct H as [H|H]; [discriminate | right; exact H].
  - intros [= <-]. left. reflexivity.
Qed.

Lemma fold_add_edge_total solution es n obj :
  length solution = n ->
  Forall (fun e : nat * nat * R => fst (fst e) < n /\ snd (fst e) < n) es ->
  exists s, fold_left (add_edge solution) es (Ok obj) = Ok s.
Proof.
  intros Hlen. revert obj.
  induction es as [|[[u v] w] es IH]; intros obj Hwf.
  - exists obj. reflexivity.
  - apply Forall_cons in Hwf as [[Hu Hv] Hwf]. cbn in Hu, Hv.
    cbn [fold_left add_edge].
    destruct (lookup_lt_is_Some_2 solution u ltac:(lia)) as [a ->].
    destruct (lookup_lt_is_Some_2 solution v ltac:(lia)) as [b ->].
    apply IH, Hwf.
Qed.

(** On a well-formed graph the evaluator returns for every solution of
    the right length. *)
Lemma obj_maxcut_total solution graph :
  graph_wf graph -> length solution = nodeCount graph ->
  exists s, obj_maxcut solution graph = Ok s.
Proof.
  intros Hwf Hlen. unfold obj_maxcut. rewrite Hlen, Nat.eqb_refl.
  eapply fold_add_edge_total; [exact Hlen | exact Hwf].
Qed.

(** ** Loops *)

Lemma for_each_app {A St} (xs ys : list A) (body : St -> A -> M St) s m :
  for_each (xs ++ ys) body s m =
    bind (for_each xs body s) (for_each ys body) m.
Proof.
  revert s m. induction xs as [|x xs IH]; intros s m; cbn [for_each app].
  - unfold bind, ret. reflexivity.
  - unfold bind. destruct (body s x m) as [[s1 m1]|e]; [|reflexivity].
    rewrite IH. reflexivity.
Qed.

(** An invariant indexed by the number of iterations done. *)
Lemma for_each_indexed {A St} (body : St -> A -> M St) (xs : list A) :
  forall (P : nat -> St -> machine -> Prop),
  (forall i s x m s' m',
      xs !! i = Some x -> P i s m -> body s x m = Ok (s', m') -> P (S i) s' m') ->
  forall s m s' m',
    P 0 s m -> for_each xs body s m = Ok (s', m') -> P (length xs) s' m'.
Proof.
  induction xs as [|x xs IH]; intros P Hbody s m s' m' HP H.
  - injection H as <- <-. exact HP.
  - cbn [for_each] in H. apply bind_Ok in H as (s1 & m1 & H1 & H2).
    apply (IH (fun i => P (S i))) with (s := s1) (m := m1).
    + intros i s2 y m2 s3 m3 Hy. apply (Hbody (S i)). exact Hy.
    + apply (Hbody 0 s x m); [reflexivity | exact HP | exact H1].
    + exact H2.
Qed.

Lemma for_each_invariant {A St} (P : St -> machine -> Prop)
    (body : St -> A -> M St) (xs : list A) :
  (forall s x m s' m', In x xs -> P s m -> body s x m = Ok (s', m') -> P s' m') ->
  forall s m s' m',
    P s m -> for_each xs body s m = Ok (s', m') -> P s' m'.
Proof.
  intros Hbody s m s' m' HP H.
  apply (for_each_indexed body xs (fun _ => P)) with (s := s) (m := m); auto.
  intros i s1 x m1 s2 m2 Hx. apply Hbody.
  apply list_elem_of_In, list_elem_of_lookup. eauto.
Qed.

(** A loop whose body returns in every state of the invariant returns. *)
Lemma for_each_total {A St} (P : St -> machine -> Prop)
    (body : St -> A -> M St) (xs : list A) :
  (forall s x m, In x xs -> P s m ->
     exists s' m', body s x m = Ok (s', m') /\ P s' m') ->
  forall s m, P s m -> exists s' m', for_each xs body s m = Ok (s', m').
Proof.
  induction xs as [|x xs IH]; intros Hbody s m HP.
  - exists s, m. reflexivity.
  - destruct (Hbody s x m (or_introl eq_refl) HP) as (s1 & m1 & H1 & HP1).
    destruct (IH (fun s y m H => Hbody s y m (or_intror H)) s1 m1 HP1)
      as (s' & m' & H').
    exists s', m'. cbn [for_each]. rewrite (bind_eq_Ok _ _ _ _ _ H1). exact H'.
Qed.

(** A loop that raises does so in its body, in a state of the invariant. *)
Lemma for_each_Raise_inv {A St} (P : St -> machine -> Prop)
    (body : St -> A -> M St) (xs : list A) e :
  (forall s x m s' m', P s m -> body s x m = Ok (s', m') -> P s' m') ->
  forall s m,
    P s m -> for_each xs body s m = Raise e ->
    exists s1 x m1, P s1 m1 /\ body s1 x m1 = Raise e.
Proof.
  intros Hbody. induction xs as [|x xs IH]; intros s m HP H.
  - discriminate.
  - cbn [for_each] in H. unfold bind in H.
    destruct (body s x m) as [[s1 m1]|e1] eqn:Hb.
    + apply (IH s1 m1); [|exact H]. eapply Hbody; eauto.
    + injection H as ->. eauto.
Qed.

Lemma range_length n : length (range n) = Z.to_nat n.
Proof. unfold range. rewrite length_map, length_seq. reflexivity. Qed.

Lemma range_lookup n (j : nat) :
  j < Z.to_nat n -> range n !! j = Some (Z.of_nat j).
Proof.
  intros H. unfold range. rewrite list_lookup_fmap.
  rewrite lookup_seq_lt by exact H. reflexivity.
Qed.

Lemma range_In n k : In k (range n) -> (0 <= k < n)%Z.
Proof.
  unfold range. rewrite in_map_iff. intros (j & <- & Hj).
  apply in_seq in Hj. lia.
Qed.

Section EngineFacts.

Variable G : globals.
Variable gen : generators.

Lemma randint_eq high m :
  0 < high ->
  randint gen 0 high m =
    Ok (np_stream gen (np_pos m) mod high,
        Machine (heap m) (S (np_pos m)) (py_pos m) (evals m)).
Proof.
  intros H. unfold randint.
  destruct (Nat.ltb_spec 0 high) as [_|]; [|lia].
  rewrite Nat.sub_0_r. reflexivity.
Qed.

Lemma random_eq m :
  random gen m =
    Ok (uval (py_stream gen (py_pos m)),
        Machine (heap m) (np_pos m) (S (py_pos m)) (evals m)).
Proof. reflexivity. Qed.

Lemma temperature_eq num_steps k m t0 :
  init_temperature G = Some t0 -> IZR num_steps <> 0%R ->
  temperature G num_steps k m =
    Ok ((t0 * (1 - IZR (k + 1) / IZR num_steps))%R, m).
Proof.
  intros Hg Hn. unfold temperature, global_init_temperature. rewrite Hg.
  unfold bind at 1, ret at 1.
  rewrite (bind_eq_Ok _ _ _ _ _ (truediv_ok _ _ _ Hn)). reflexivity.
Qed.

Lemma temperature_unbound num_steps k m :
  init_temperature G = None -> temperature G num_steps k m = Raise NameError.
Proof.
  intros Hg. unfold temperature, global_init_temperature. rewrite Hg.
  reflexivity.
Qed.

Lemma temperature_zero_steps num_steps k m t0 :
  init_temperature G = Some t0 -> IZR num_steps = 0%R ->
  temperature G num_steps k m = Raise ZeroDivisionError.
Proof.
  intros Hg Hn. unfold temperature, global_init_temperature. rewrite Hg.
  unfold bind at 1, ret at 1.
  rewrite (bind_eq_Raise _ _ _ _ (truediv_zero _ _ _ Hn)). reflexivity.
Qed.

Lemma propose_eq num_nodes graph st m cur :
  heap m !! curr_solution st = Some cur ->
  0 < num_nodes ->
  drawn_index gen num_nodes (np_pos m) < length cur ->
  propose gen num_nodes graph st m =
    match obj_maxcut (flipped cur (drawn_index gen num_nodes (np_pos m))) graph with
    | Ok sc => Ok (length (heap m), sc,
                   Machine (heap m ++ [flipped cur (drawn_index gen num_nodes (np_pos m))])
                           (S (np_pos m)) (py_pos m) (S (evals m)))
    | Raise e => Raise e
    end.
Proof.
  intros Hcur Hpos Hidx.
  destruct (lookup_lt_is_Some_2 _ _ Hidx) as [x Hx].
  unfold flipped. rewrite Hx. unfold propose.
  rewrite (bind_eq_Ok _ _ _ _ _ (deepcopy_eq _ _ _ Hcur)).
  rewrite (bind_eq_Ok _ _ _ _ _ (randint_eq _ _ Hpos)).
  fold (drawn_index gen num_nodes (np_pos m)).
  erewrite bind_eq_Ok by (eapply getitem_eq; [apply lookup_last | exact Hx]).
  erewrite bind_eq_Ok by (eapply setitem_eq; [apply lookup_last | exact Hidx]).
  cbn [heap np_pos py_pos evals]. rewrite insert_last.
  unfold bind at 1.
  erewrite call_obj_maxcut_eq by (cbn [heap]; apply lookup_last).
  cbn [heap np_pos py_pos evals].
  destruct (obj_maxcut _ graph); reflexivity.
Qed.

Lemma propose_dangling num_nodes graph st m :
  heap m !! curr_solution st = None ->
  propose gen num_nodes graph st m = Raise SystemError.
Proof.
  intros H. unfold propose, deepcopy, bind at 1 2, load. rewrite H. reflexivity.
Qed.

Lemma propose_no_nodes graph st m cur :
  heap m !! curr_solution st = Some cur ->
  propose gen 0 graph st m = Raise ValueError.
Proof.
  intros H. unfold propose.
  rewrite (bind_eq_Ok _ _ _ _ _ (deepcopy_eq _ _ _ H)). reflexivity.
Qed.

Lemma propose_out_of_range num_nodes graph st m cur :
  heap m !! curr_solution st = Some cur ->
  0 < num_nodes ->
  length cur <= drawn_index gen num_nodes (np_pos m) ->
  propose gen num_nodes graph st m = Raise IndexError.
Proof.
  intros Hcur Hpos Hidx. unfold propose.
  rewrite (bind_eq_Ok _ _ _ _ _ (deepcopy_eq _ _ _ Hcur)).
  rewrite (bind_eq_Ok _ _ _ _ _ (randint_eq _ _ Hpos)).
  fold (drawn_index gen num_nodes (np_pos m)).
  erewrite bind_eq_Raise; [reflexivity|].
  eapply getitem_out_of_range; [apply lookup_last | exact Hidx].
Qed.

(** Inversion of a proposal that returned. *)
Lemma propose_Ok_inv num_nodes graph st m ns sc m1 :
  propose gen num_nodes graph st m = Ok (ns, sc, m1) ->
  exists cur,
    heap m !! curr_solution st = Some cur /\
    0 < num_nodes /\
    drawn_index gen num_nodes (np_pos m) < length cur /\
    obj_maxcut (flipped cur (drawn_index gen num_nodes (np_pos m))) graph = Ok sc /\
    ns = length (heap m) /\
    m1 = Machine (heap m ++ [flipped cur (drawn_index gen num_nodes (np_pos m))])
                 (S (np_pos m)) (py_pos m) (S (evals m)).
Proof.
  intros H.
  destruct (heap m !! curr_solution st) as [cur|] eqn:Hcur;
    [|rewrite (propose_dangling _ _ _ _ Hcur) in H; discriminate].
  destruct (Nat.eq_dec num_nodes 0) as [->|Hnn];
    [rewrite (propose_no_nodes _ _ _ _ Hcur) in H; discriminate|].
  destruct (Nat.lt_ge_cases (drawn_index gen num_nodes (np_pos m)) (length cur))
    as [Hidx|Hidx];
    [|rewrite (propose_out_of_range _ _ _ _ _ Hcur) in H by lia; discriminate].
  rewrite (propose_eq _ _ _ _ _ Hcur) in H by lia.
  destruct (obj_maxcut _ graph) as [sc'|] eqn:Hs; [|discriminate].
  injection H as <- <- <-.
  exists cur. repeat split; auto; lia.
Qed.

(** *** The acceptance test *)

Lemma accept_improving temp ns sc st m :
  (curr_score st - sc < 0)%R ->
  accept gen temp ns sc st m = Ok (accepted ns sc st, m).
Proof.
  intros Hd. unfold accept.
  destruct (Rlt_dec (curr_score st - sc) 0); [reflexivity | contradiction].
Qed.

Lemma accept_zero_division temp ns sc st m :
  (0 <= curr_score st - sc)%R -> (temp + eps = 0)%R ->
  accept gen temp ns sc st m = Raise ZeroDivisionError.
Proof.
  intros Hd Ht. unfold accept.
  destruct (Rlt_dec (curr_score st - sc) 0); [lra|].
  rewrite (bind_eq_Raise _ _ _ _ (truediv_zero _ _ _ Ht)). reflexivity.
Qed.

Lemma accept_metropolis temp ns sc st m :
  (0 <= curr_score st - sc)%R -> (temp + eps <> 0)%R ->
  (exp (- (curr_score st - sc) / (temp + eps)) > uval (py_stream gen (py_pos m)))%R ->
  accept gen temp ns sc st m = Ok (accepted ns sc st, drew m).
Proof.
  intros Hd Ht Hp. unfold accept.
  destruct (Rlt_dec (curr_score st - sc) 0); [lra|].
  rewrite (bind_eq_Ok _ _ _ _ _ (truediv_ok _ _ _ Ht)).
  rewrite (bind_eq_Ok _ _ _ _ _ (random_eq _)).
  destruct (Rgt_dec _ _); [reflexivity | contradiction].
Qed.

Lemma accept_rejecting temp ns sc st m :
  (0 <= curr_score st - sc)%R -> (temp + eps <> 0)%R ->
  (exp (- (curr_score st - sc) / (temp + eps)) <= uval (py_stream gen (py_pos m)))%R ->
  accept gen temp ns sc st m = Ok (kept sc st, drew m).
Proof.
  intros Hd Ht Hp. unfold accept.
  destruct (Rlt_dec (curr_score st - sc) 0); [lra|].
  rewrite (bind_eq_Ok _ _ _ _ _ (truediv_ok _ _ _ Ht)).
  rewrite (bind_eq_Ok _ _ _ _ _ (random_eq _)).
  destruct (Rgt_dec _ _); [lra | reflexivity].
Qed.

(** The three ways in which the acceptance test returns. *)
Lemma accept_Ok_inv temp ns sc st m st' m' :
  accept gen temp ns sc st m = Ok (st', m') ->
  ((curr_score st - sc < 0)%R /\ st' = accepted ns sc st /\ m' = m) \/
  ((0 <= curr_score st - sc)%R /\ (temp + eps <> 0)%R /\ m' = drew m /\
   (((exp (- (curr_score st - sc) / (temp + eps)) >
       uval (py_stream gen (py_pos m)))%R /\ st' = accepted ns sc st) \/
    ((exp (- (curr_score st - sc) / (temp + eps)) <=
       uval (py_stream gen (py_pos m)))%R /\ st' = kept sc st))).
Proof.
  intros H.
  destruct (Rlt_dec (curr_score st - sc) 0) as [Hd|Hd].
  - rewrite accept_improving in H by exact Hd. injection H as <- <-. auto.
  - apply Rnot_lt_le in Hd. right.
    destruct (Req_EM_T (temp + eps) 0) as [Ht|Ht];
      [rewrite accept_zero_division in H by assumption; discriminate|].
    destruct (Rgt_dec (exp (- (curr_score st - sc) / (temp + eps)))
                      (uval (py_stream gen (py_pos m)))) as [Hp|Hp].
    + rewrite accept_metropolis in H by assumption. injection H as <- <-.
      repeat split; auto.
    + apply Rnot_gt_le in Hp.
      rewrite accept_rejecting in H by assumption. injection H as <- <-.
      repeat split; auto.
Qed.

Lemma loop_body_summary num_steps num_nodes graph st k m cur :
  heap m !! curr_solution st = Some cur ->
  loop_body G gen num_steps num_nodes graph st k m =
    match step_summary G gen num_steps num_nodes graph cur (curr_score st) k
                       (np_pos m) (py_pos m) with
    | Ok s => Ok (commit st m s)
    | Raise e => Raise e
    end.
Proof.
  intros Hcur. unfold loop_body, step_summary.
  destruct (init_temperature G) as [t0|] eqn:Hg;
    [|rewrite (bind_eq_Raise _ _ _ _ (temperature_unbound _ _ _ Hg)); reflexivity].
  destruct (Req_EM_T (IZR num_steps) 0) as [Hn|Hn];
    [rewrite (bind_eq_Raise _ _ _ _ (temperature_zero_steps _ _ _ _ Hg Hn));
     reflexivity|].
  rewrite (bind_eq_Ok _ _ _ _ _ (temperature_eq _ _ _ _ Hg Hn)).
  destruct (Nat.eqb_spec num_nodes 0) as [->|Hnn];
    [rewrite (bind_eq_Raise _ _ _ _ (propose_no_nodes _ _ _ _ Hcur)); reflexivity|].
  assert (Hpos : 0 < num_nodes) by lia.
  destruct (Nat.ltb_spec (drawn_index gen num_nodes (np_pos m)) (length cur))
    as [Hidx|Hidx];
    [|rewrite (bind_eq_Raise _ _ _ _
                 (propose_out_of_range _ _ _ _ _ Hcur Hpos Hidx));
      reflexivity].
  unfold bind at 1. rewrite (propose_eq _ _ _ _ _ Hcur Hpos Hidx).
  destruct (obj_maxcut _ graph) as [sc|e]; [|reflexivity].
  set (m1 := Machine _ _ _ _).
  destruct (Rlt_dec (curr_score st - sc) 0) as [Hd|Hd].
  { rewrite accept_improving by exact Hd. reflexivity. }
  apply Rnot_lt_le in Hd.
  destruct (Req_EM_T _ 0) as [Ht|Ht].
  { rewrite accept_zero_division by assumption. reflexivity. }
  destruct (Rgt_dec _ _) as [Hp|Hp].
  - rewrite accept_metropolis by assumption. reflexivity.
  - apply Rnot_gt_le in Hp. rewrite accept_rejecting by assumption. reflexivity.
Qed.

Lemma step_summary_Ok_inv num_steps num_nodes graph cur cs k np py cand sc acc dr :
  step_summary G gen num_steps num_nodes graph cur cs k np py
    = Ok (cand, sc, acc, dr) ->
  exists t0,
    init_temperature G = Some t0 /\
    IZR num_steps <> 0%R /\
    0 < num_nodes /\
    drawn_index gen num_nodes np < length cur /\
    cand = flipped cur (drawn_index gen num_nodes np) /\
    obj_maxcut cand graph = Ok sc /\
    (((cs - sc < 0)%R /\ acc = true /\ dr = false) \/
     ((0 <= cs - sc)%R /\
      (t0 * (1 - IZR (k + 1) / IZR num_steps) + eps <> 0)%R /\ dr = true /\
      (((exp (- (cs - sc) / (t0 * (1 - IZR (k + 1) / IZR num_steps) + eps)) >
          uval (py_stream gen py))%R /\ acc = true) \/
       ((exp (- (cs - sc) / (t0 * (1 - IZR (k + 1) / IZR num_steps) + eps)) <=
          uval (py_stream gen py))%R /\ acc = false)))).
Proof.
  unfold step_summary. intros H.
  destruct (init_temperature G) as [t0|]; [|discriminate].
  destruct (Req_EM_T (IZR num_steps) 0) as [|Hn]; [discriminate|].
  destruct (Nat.eqb_spec num_nodes 0) as [|Hnn]; [discriminate|].
  destruct (Nat.ltb_spec (drawn_index gen num_nodes np) (length cur))
    as [Hidx|]; [|discriminate].
  destruct (obj_maxcut _ graph) as [sc'|] eqn:Hobj; [|discriminate].
  exists t0.
  destruct (Rlt_dec (cs - sc') 0) as [Hd|Hd].
  { injection H as <- <- <- <-. repeat split; auto; lia. }
  apply Rnot_lt_le in Hd.
  destruct (Req_EM_T _ 0) as [|Ht]; [discriminate|].
  destruct (Rgt_dec _ _) as [Hp|Hp]; injection H as <- <- <- <-.
  - repeat split; auto; try lia. right. repeat split; auto.
  - apply Rnot_gt_le in Hp.
    repeat split; auto; try lia. right. repeat split; auto.
Qed.

(** An iteration that returns went through [step_summary]. *)
Lemma loop_body_Ok_inv num_steps num_nodes graph st k m st' m' :
  loop_body G gen num_steps num_nodes graph st k m = Ok (st', m') ->
  exists cur cand sc acc dr,
    heap m !! curr_solution st = Some cur /\
    step_summary G gen num_steps num_nodes graph cur (curr_score st) k
                 (np_pos m) (py_pos m) = Ok (cand, sc, acc, dr) /\
    (st', m') = commit st m (cand, sc, acc, dr).
Proof.
  intros H.
  assert (Hcur : exists cur, heap m !! curr_solution st = Some cur).
  { unfold loop_body in H.
    apply bind_Ok in H as (temp & m1 & Ht & H).
    apply bind_Ok in H as ([ns sc] & m2 & Hp & _).
    assert (m1 = m) as ->.
    { unfold temperature, global_init_temperature in Ht.
      destruct (init_temperature G); [|discriminate].
      apply bind_Ok in Ht as (t & m3 & Hr & Ht). injection Hr as <- <-.
      apply bind_Ok in Ht as (q & m4 & Hq & Ht).
      apply truediv_Ok_inv in Hq as (_ & _ & ->).
      injection Ht as _ <-. reflexivity. }
    apply propose_Ok_inv in Hp as (cur & Hcur & _). eauto. }
  destruct Hcur as [cur Hcur]. rewrite (loop_body_summary _ _ _ _ _ _ _ Hcur) in H.
  destruct (step_summary _ _ _ _ _ _ _ _ _ _) as [[[[cand sc] acc] dr]|]
    eqn:Hsum; [|discriminate].
  injection H as <- <-. exists cur, cand, sc, acc, dr. auto.
Qed.

(** *** Initialisation *)

Lemma init_solution_length graph :
  length (init_solution graph) = 2 * (number_of_nodes graph / 2).
Proof. unfold init_solution. rewrite length_app, !length_replicate. lia. Qed.

Lemma init_solution_labels graph : Forall is_label (init_solution graph).
Proof.
  unfold init_solution. apply Forall_app. split; apply Forall_replicate.
  - left. reflexivity.
  - right. reflexivity.
Qed.

Lemma setup_eq graph m :
  setup graph m =
    match obj_maxcut (init_solution graph) graph with
    | Ok s =>
        Ok (length (init_solution graph), s, Locals (S (length (heap m))) s [],
            Machine ((heap m ++ [init_solution graph]) ++ [init_solution graph])
                    (np_pos m) (py_pos m) (S (evals m)))
    | Raise e => Raise e
    end.
Proof.
  unfold setup. unfold bind at 1, alloc.
  erewrite bind_eq_Ok by (apply deepcopy_eq; cbn [heap]; apply lookup_last).
  cbn [heap np_pos py_pos evals]. rewrite length_snoc.
  unfold bind at 1.
  erewrite call_obj_maxcut_eq by (cbn [heap]; apply lookup_last2).
  destruct (obj_maxcut _ graph) as [s|e]; [|reflexivity].
  erewrite bind_eq_Ok by (apply len_eq; cbn [heap]; apply lookup_last1).
  reflexivity.
Qed.

Lemma setup_Inv graph m num_nodes init_score st0 m0 :
  setup graph m = Ok (num_nodes, init_score, st0, m0) ->
  num_nodes = length (init_solution graph) /\
  Inv graph num_nodes st0 m0 /\
  heap m0 !! curr_solution st0 = Some (init_solution graph) /\
  curr_score st0 = init_score /\ scores st0 = [] /\
  np_pos m0 = np_pos m /\ py_pos m0 = py_pos m /\ evals m0 = S (evals m).
Proof.
  rewrite setup_eq.
  destruct (obj_maxcut _ graph) as [s|] eqn:Hobj; [|discriminate].
  intros [= <- <- <- <-]. cbn [heap curr_solution curr_score scores np_pos py_pos evals].
  pose proof (lookup_last2 (heap m) (init_solution graph) (init_solution graph))
    as Hl.
  repeat split; auto.
  exists (init_solution graph). cbn [heap curr_solution curr_score].
  repeat split; auto using init_solution_labels.
Qed.

(** *** The invariant is preserved *)

Lemma loop_body_Inv num_steps num_nodes graph st k m st' m' :
  Inv graph num_nodes st m ->
  loop_body G gen num_steps num_nodes graph st k m = Ok (st', m') ->
  Inv graph num_nodes st' m'.
Proof.
  intros (cur & Hcur & Hlen & Hlab & Hobj) H.
  apply loop_body_Ok_inv in H
    as (cur' & cand & sc & acc & dr & Hcur' & Hsum & Hcommit).
  rewrite Hcur in Hcur'. injection Hcur' as <-.
  apply step_summary_Ok_inv in Hsum
    as (t0 & _ & _ & _ & Hidx & -> & Hsc & _).
  unfold commit in Hcommit. injection Hcommit as -> ->.
  destruct acc.
  - exists (flipped cur (drawn_index gen num_nodes (np_pos m))).
    cbn [heap accepted curr_solution curr_score].
    rewrite lookup_last, flipped_length.
    repeat split; auto using flipped_labels.
  - exists cur. cbn [heap kept curr_solution curr_score].
    rewrite lookup_app_l by (eapply lookup_lt_Some; exact Hcur).
    repeat split; auto.
Qed.

(** *** Runs *)

Lemma iterate_Ok_inv num_steps graph j m0 num_nodes init_score st m :
  iterate G gen num_steps graph j m0 = Ok (num_nodes, init_score, st, m) ->
  exists st0 m1,
    setup graph m0 = Ok (num_nodes, init_score, st0, m1) /\
    for_each (take j (range num_steps))
             (loop_body G gen num_steps num_nodes graph) st0 m1 = Ok (st, m).
Proof.
  unfold iterate. intros H.
  apply bind_Ok in H as ([[nn s0] st0] & m1 & Hs & H).
  apply bind_Ok in H as (st1 & m2 & Hl & H).
  injection H as <- <- <- <-. eauto.
Qed.

(** One more iteration: the state at the entry of iteration [j + 1] is
    obtained from the state at the entry of iteration [j] by running the
    loop body for [k = j]. *)
Lemma iterate_succ num_steps graph (j : nat) m0 :
  j < Z.to_nat num_steps ->
  iterate G gen num_steps graph (S j) m0 =
    bind (iterate G gen num_steps graph j)
         (fun r => let '(num_nodes, init_score, st) := r in
                   st' <- loop_body G gen num_steps num_nodes graph st
                                    (Z.of_nat j) ;;
                   ret (num_nodes, init_score, st')) m0.
Proof.
  intros Hj. unfold iterate.
  rewrite (take_S_r _ _ _ (range_lookup num_steps j Hj)).
  unfold bind.
  destruct (setup graph m0) as [[[[nn s0] st0] m1]|e]; [|reflexivity].
  rewrite for_each_app. unfold bind.
  destruct (for_each (take j (range num_steps)) _ st0 m1) as [[st m]|e];
    [|reflexivity].
  cbn [for_each]. unfold bind, ret.
  destruct (loop_body G gen num_steps nn graph st (Z.of_nat j) m)
    as [[st' m']|e]; reflexivity.
Qed.

Lemma iterate_Inv num_steps graph j m0 num_nodes init_score st m :
  iterate G gen num_steps graph j m0 = Ok (num_nodes, init_score, st, m) ->
  num_nodes = length (init_solution graph) /\ Inv graph num_nodes st m.
Proof.
  intros H. apply iterate_Ok_inv in H as (st0 & m1 & Hs & Hl).
  apply setup_Inv in Hs as (Hnn & Hinv & _). split; [exact Hnn|].
  eapply for_each_invariant; [|exact Hinv|exact Hl].
  intros s k m2 s' m2' _. apply loop_body_Inv.
Qed.

Lemma iterate_scores_length num_steps graph j m0 num_nodes init_score st m :
  iterate G gen num_steps graph j m0 = Ok (num_nodes, init_score, st, m) ->
  length (scores st) = Nat.min j (Z.to_nat num_steps).
Proof.
  intros H. apply iterate_Ok_inv in H as (st0 & m1 & Hs & Hl).
  apply setup_Inv in Hs as (_ & _ & _ & _ & Hsc & _).
  rewrite <- range_length, <- length_take.
  refine (for_each_indexed _ _ (fun i s _ => length (scores s) = i)
            _ st0 m1 st m _ Hl); [|rewrite Hsc; reflexivity].
  intros i s k m2 s' m2' _ Hi Hb.
  apply loop_body_Ok_inv in Hb as (cur & cand & sc & [] & dr & _ & _ & Hc);
    injection Hc as -> _; cbn [accepted kept scores];
    rewrite length_app; cbn; lia.
Qed.

Lemma temperature_decay_iterate num_steps graph m0 :
  temperature_decay G gen num_steps graph m0 =
    match iterate G gen num_steps graph (Z.to_nat num_steps) m0 with
    | Ok (num_nodes, init_score, st, m) =>
        Ok (scores st, init_score, curr_score st, curr_solution st, m)
    | Raise e => Raise e
    end.
Proof.
  unfold temperature_decay, iterate.
  rewrite take_ge by (rewrite range_length; lia).
  unfold bind at 1 3. destruct (setup graph m0) as [[[[nn s0] st0] m1]|e];
    [|reflexivity].
  unfold bind.
  destruct (for_each _ _ st0 m1) as [[st m]|e]; reflexivity.
Qed.

Lemma temperature_decay_Ok_inv num_steps graph m0 trace init_score score sol m :
  temperature_decay G gen num_steps graph m0
    = Ok (trace, init_score, score, sol, m) ->
  exists num_nodes st,
    iterate G gen num_steps graph (Z.to_nat num_steps) m0
      = Ok (num_nodes, init_score, st, m) /\
    trace = scores st /\ score = curr_score st /\ sol = curr_solution st.
Proof.
  rewrite temperature_decay_iterate.
  destruct (iterate _ _ _ _ _ _) as [[[[nn s0] st] m1]|]; [|discriminate].
  intros [= <- <- <- <- <-]. eauto 10.
Qed.

Lemma simulated_annealing_Ok_inv a num_steps graph m0 score sol trace m :
  simulated_annealing G gen a num_steps graph m0 = Ok (score, sol, trace, m) ->
  exists init_score,
    temperature_decay G gen num_steps graph m0
      = Ok (trace, init_score, score, sol, m).
Proof.
  unfold simulated_annealing. intros H.
  apply bind_Ok in H as ([[[tr s0] cs] l] & m1 & Ht & H).
  injection H as <- <- <- <-. eauto.
Qed.

(** *** Forward rules for one iteration *)

Section Forward.

Variables (num_steps : Z) (num_nodes : nat) (graph : Graph).
Variables (st : locals) (k : Z) (m : machine).
Variables (t0 : R) (cur : list Z) (sc : R).

Hypothesis Hglobal : init_temperature G = Some t0.
Hypothesis Hsteps : IZR num_steps <> 0%R.
Hypothesis Hcur : heap m !! curr_solution st = Some cur.
Hypothesis Hnodes : 0 < num_nodes.
Hypothesis Hidx : drawn_index gen num_nodes (np_pos m) < length cur.
Hypothesis Hscore :
  obj_maxcut (flipped cur (drawn_index gen num_nodes (np_pos m))) graph = Ok sc.

Let temp : R := (t0 * (1 - IZR (k + 1) / IZR num_steps))%R.
Let cand : list Z := flipped cur (drawn_index gen num_nodes (np_pos m)).
Let m1 : machine :=
  Machine (heap m ++ [cand]) (S (np_pos m)) (py_pos m) (S (evals m)).

Lemma loop_body_accept :
  loop_body G gen num_steps num_nodes graph st k m =
    accept gen temp (length (heap m)) sc st m1.
Proof.
  unfold loop_body.
  rewrite (bind_eq_Ok _ _ _ _ _ (temperature_eq _ _ _ _ Hglobal Hsteps)).
  unfold bind. rewrite (propose_eq _ _ _ _ _ Hcur Hnodes Hidx), Hscore.
  reflexivity.
Qed.

Lemma loop_body_improving :
  (curr_score st - sc < 0)%R ->
  loop_body G gen num_steps num_nodes graph st k m =
    Ok (accepted (length (heap m)) sc st, m1).
Proof. intros H. rewrite loop_body_accept. apply accept_improving, H. Qed.

Lemma loop_body_metropolis :
  (0 <= curr_score st - sc)%R -> (temp + eps <> 0)%R ->
  (exp (- (curr_score st - sc) / (temp + eps)) > uval (py_stream gen (py_pos m)))%R ->
  loop_body G gen num_steps num_nodes graph st k m =
    Ok (accepted (length (heap m)) sc st, drew m1).
Proof. intros. rewrite loop_body_accept. apply accept_metropolis; assumption. Qed.

Lemma loop_body_rejecting :
  (0 <= curr_score st - sc)%R -> (temp + eps <> 0)%R ->
  (exp (- (curr_score st - sc) / (temp + eps)) <= uval (py_stream gen (py_pos m)))%R ->
  loop_body G gen num_steps num_nodes graph st k m =
    Ok (kept sc st, drew m1).
Proof. intros. rewrite loop_body_accept. apply accept_rejecting; assumption. Qed.

End Forward.

Lemma loop_body_dangling num_steps num_nodes graph st k m :
  heap m !! curr_solution st = None ->
  loop_body G gen num_steps num_nodes graph st k m = Raise NameError \/
  loop_body G gen num_steps num_nodes graph st k m = Raise ZeroDivisionError /\
    IZR num_steps = 0%R \/
  loop_body G gen num_steps num_nodes graph st k m = Raise SystemError.
Proof.
  intros Hcur. unfold loop_body.
  destruct (init_temperature G) as [t0|] eqn:Hg;
    [|left; rewrite (bind_eq_Raise _ _ _ _ (temperature_unbound _ _ _ Hg));
      reflexivity].
  destruct (Req_EM_T (IZR num_steps) 0) as [Hn|Hn].
  - right. left. split; [|exact Hn].
    rewrite (bind_eq_Raise _ _ _ _ (temperature_zero_steps _ _ _ _ Hg Hn)).
    reflexivity.
  - right. right.
    rewrite (bind_eq_Ok _ _ _ _ _ (temperature_eq _ _ _ _ Hg Hn)).
    rewrite (bind_eq_Raise _ _ _ _ (propose_dangling _ _ _ _ Hcur)).
    reflexivity.
Qed.

(** The temperature of the last iteration. *)
Lemma last_temperature (t0 : R) (num_steps : Z) :
  (0 < num_steps)%Z ->
  (t0 * (1 - IZR (num_steps - 1 + 1) / IZR num_steps))%R = 0%R.
Proof.
  intros Hn. replace (num_steps - 1 + 1)%Z with num_steps by lia.
  assert (IZR num_steps <> 0%R) by (apply not_0_IZR; lia).
  field. assumption.
Qed.

(** A non-negative initial temperature gives non-negative temperatures. *)
Lemma temperature_nonneg (t0 : R) (num_steps k : Z) :
  (0 <= t0)%R -> (0 <= k < num_steps)%Z ->
  (0 <= t0 * (1 - IZR (k + 1) / IZR num_steps))%R.
Proof.
  intros Ht Hk.
  assert (Hn : (0 < IZR num_steps)%R) by (apply IZR_lt; lia).
  assert (Hk1 : (IZR (k + 1) <= IZR num_steps)%R) by (apply IZR_le; lia).
  apply Rmult_le_pos; [exact Ht|].
  assert (Hq : (IZR (k + 1) / IZR num_steps * IZR num_steps = IZR (k + 1))%R)
    by (field; lra).
  nra.
Qed.

(** *** Runs with no iteration, and the first iteration *)

Lemma range_nonpositive n : (n <= 0)%Z -> range n = [].
Proof.
  intros H. unfold range. replace (Z.to_nat n) with 0 by lia. reflexivity.
Qed.

Lemma range_positive n :
  (0 < n)%Z -> exists ks, range n = 0%Z :: ks.
Proof.
  intros H. unfold range.
  destruct (Z.to_nat n) as [|p] eqn:Hp; [lia|].
  cbn [seq map]. eauto.
Qed.

Lemma temperature_decay_no_steps num_steps graph m s0 :
  (num_steps <= 0)%Z ->
  obj_maxcut (init_solution graph) graph = Ok s0 ->
  temperature_decay G gen num_steps graph m =
    Ok ([], s0, s0, S (length (heap m)),
        Machine ((heap m ++ [init_solution graph]) ++ [init_solution graph])
                (np_pos m) (py_pos m) (S (evals m))).
Proof.
  intros Hn Hs. unfold temperature_decay.
  unfold bind at 1. rewrite setup_eq, Hs, (range_nonpositive _ Hn).
  reflexivity.
Qed.

Lemma simulated_annealing_eq a num_steps graph m :
  simulated_annealing G gen a num_steps graph m =
    match obj_maxcut (init_solution graph) graph with
    | Raise e => Raise e
    | Ok s0 =>
        match for_each (range num_steps)
                (loop_body G gen num_steps (length (init_solution graph)) graph)
                (Locals (S (length (heap m))) s0 [])
                (Machine ((heap m ++ [init_solution graph])
                            ++ [init_solution graph])
                         (np_pos m) (py_pos m) (S (evals m))) with
        | Ok (st, m') => Ok (curr_score st, curr_solution st, scores st, m')
        | Raise e => Raise e
        end
    end.
Proof.
  unfold simulated_annealing, temperature_decay, bind. rewrite setup_eq.
  destruct (obj_maxcut _ graph) as [s0|e]; [|reflexivity].
  destruct (for_each _ _ _ _) as [[st m']|e]; reflexivity.
Qed.

(** When the first iteration raises, so does the run. *)
Lemma temperature_decay_first_raise num_steps graph m s0 e :
  (0 < num_steps)%Z ->
  obj_maxcut (init_solution graph) graph = Ok s0 ->
  loop_body G gen num_steps (length (init_solution graph)) graph
    (Locals (S (length (heap m))) s0 []) 0%Z
    (Machine ((heap m ++ [init_solution graph]) ++ [init_solution graph])
             (np_pos m) (py_pos m) (S (evals m))) = Raise e ->
  temperature_decay G gen num_steps graph m = Raise e.
Proof.
  intros Hn Hs Hb. unfold temperature_decay.
  unfold bind at 1. rewrite setup_eq, Hs.
  destruct (range_positive _ Hn) as [ks ->]. cbn [for_each].
  unfold bind. rewrite Hb. reflexivity.
Qed.

(** *** No dangling reference; runs that return *)

Lemma step_summary_errors num_steps num_nodes graph cur cs k np py e :
  step_summary G gen num_steps num_nodes graph cur cs k np py = Raise e ->
  e <> SystemError.
Proof.
  unfold step_summary.
  destruct (init_temperature G); [|intros [= <-]; discriminate].
  destruct (Req_EM_T _ 0); [intros [= <-]; discriminate|].
  destruct (Nat.eqb _ 0); [intros [= <-]; discriminate|].
  destruct (Nat.ltb _ _); [|intros [= <-]; discriminate].
  destruct (obj_maxcut _ graph) as [sc|e'] eqn:He.
  - destruct (Rlt_dec _ 0); [discriminate|].
    destruct (Req_EM_T _ 0); [intros [= <-]; discriminate|].
    destruct (Rgt_dec _ _); discriminate.
  - intros [= <-]. apply obj_maxcut_errors in He.
    destruct He as [-> | ->]; discriminate.
Qed.

(** The references held by the program are never dangling. *)
Lemma simulated_annealing_no_SystemError a num_steps graph m :
  simulated_annealing G gen a num_steps graph m <> Raise SystemError.
Proof.
  rewrite simulated_annealing_eq.
  destruct (obj_maxcut (init_solution graph) graph) as [s0|e] eqn:Hs.
  2: { apply obj_maxcut_errors in Hs. destruct Hs as [-> | ->]; discriminate. }
  destruct (for_each _ _ _ _) as [[st m']|e] eqn:Hl; [discriminate|].
  intros [= ->].
  apply (for_each_Raise_inv (Inv graph (length (init_solution graph)))) in Hl
    as (s1 & k & m1 & (cur & Hcur & _) & Hb).
  - rewrite (loop_body_summary _ _ _ _ _ _ _ Hcur) in Hb.
    destruct (step_summary _ _ _ _ _ _ _ _ _ _) as [?|e] eqn:He; [discriminate|].
    injection Hb as ->. exact (step_summary_errors _ _ _ _ _ _ _ _ _ He eq_refl).
  - intros s k m1 s' m1'. apply loop_body_Inv.
  - exists (init_solution graph). cbn [heap curr_solution curr_score].
    rewrite lookup_last2. auto using init_solution_labels.
Qed.

(** An iteration returns when the graph is well formed, the solution
    covers its nodes and the initial temperature is not negative. *)
Lemma loop_body_total num_steps graph st k m t0 :
  init_temperature G = Some t0 -> (0 <= t0)%R ->
  graph_wf graph -> 0 < nodeCount graph ->
  (0 <= k < num_steps)%Z ->
  Inv graph (nodeCount graph) st m ->
  exists st' m',
    loop_body G gen num_steps (nodeCount graph) graph st k m = Ok (st', m') /\
    Inv graph (nodeCount graph) st' m'.
Proof.
  intros Hg Ht Hwf Hpos Hk Hinv.
  assert (Hsome : exists r,
             loop_body G gen num_steps (nodeCount graph) graph st k m = Ok r).
  { destruct Hinv as (cur & Hcur & Hlen & Hlab & Hobj).
    rewrite (loop_body_summary _ _ _ _ _ _ _ Hcur).
    unfold step_summary. rewrite Hg.
    destruct (Req_EM_T (IZR num_steps) 0) as [Hn|_];
      [apply eq_IZR in Hn; lia|].
    destruct (Nat.eqb_spec (nodeCount graph) 0) as [|_]; [lia|].
    destruct (Nat.ltb_spec (drawn_index gen (nodeCount graph) (np_pos m))
                           (length cur)) as [_|Hge].
    2: { unfold drawn_index in Hge. rewrite Hlen in Hge.
         pose proof (Nat.mod_upper_bound (np_stream gen (np_pos m))
                       (nodeCount graph)). lia. }
    destruct (obj_maxcut_total
                (flipped cur (drawn_index gen (nodeCount graph) (np_pos m)))
                graph Hwf) as [sc ->];
      [rewrite flipped_length; exact Hlen|].
    destruct (Rlt_dec _ 0); [eauto|].
    destruct (Req_EM_T _ 0) as [Hz|_].
    { pose proof (temperature_nonneg t0 num_steps k Ht Hk).
      pose proof eps_pos. lra. }
    destruct (Rgt_dec _ _); eauto. }
  destruct Hsome as [[st' m'] H]. exists st', m'. split; [exact H|].
  eapply loop_body_Inv; eauto.
Qed.

(** A run returns when the graph is well formed with an even, positive
    number of nodes and the initial temperature is bound and not
    negative. *)
Lemma simulated_annealing_total a num_steps graph m t0 :
  init_temperature G = Some t0 -> (0 <= t0)%R ->
  graph_wf graph -> 0 < nodeCount graph -> Nat.Even (nodeCount graph) ->
  exists r m', simulated_annealing G gen a num_steps graph m = Ok (r, m').
Proof.
  intros Hg Ht Hwf Hpos Heven.
  assert (Hlen : length (init_solution graph) = nodeCount graph).
  { rewrite init_solution_length. unfold number_of_nodes.
    destruct Heven as [h Hh]. rewrite Hh.
    rewrite (Nat.mul_comm 2 h), Nat.div_mul by lia. lia. }
  rewrite simulated_annealing_eq.
  destruct (obj_maxcut_total (init_solution graph) graph Hwf Hlen) as [s0 Hs].
  rewrite Hs, Hlen.
  destruct (for_each_total (Inv graph (nodeCount graph))
              (loop_body G gen num_steps (nodeCount graph) graph)
              (range num_steps)) with
      (s := Locals (S (length (heap m))) s0 [])
      (m := Machine ((heap m ++ [init_solution graph]) ++ [init_solution graph])
                    (np_pos m) (py_pos m) (S (evals m)))
    as (st & m' & ->).
  - intros s k m1 Hin Hinv.
    apply (loop_body_total num_steps graph s k m1 t0); auto.
    apply range_In, Hin.
  - exists (init_solution graph). cbn [heap curr_solution curr_score].
    rewrite lookup_last2. auto using init_solution_labels.
  - eauto.
Qed.

(** For an even node count the initial solution is the bipartition into
    the first and the second half of the nodes. *)
Lemma init_solution_even graph :
  Nat.Even (number_of_nodes graph) ->
  init_solution graph =
    replicate (number_of_nodes graph / 2) 0%Z
    ++ replicate (number_of_nodes graph - number_of_nodes graph / 2) 1%Z /\
  length (init_solution graph) = number_of_nodes graph.
Proof.
  intros [h Hh].
  assert (Hd : number_of_nodes graph / 2 = h)
    by (rewrite Hh, (Nat.mul_comm 2 h); apply Nat.div_mul; lia).
  split.
  - unfold init_solution. rewrite Hd. f_equal. f_equal. lia.
  - rewrite init_solution_length, Hd. lia.
Qed.

(** For an odd node count one node is left without a label. *)
Lemma init_solution_odd graph :
  Nat.Odd (number_of_nodes graph) ->
  S (length (init_solution graph)) = number_of_nodes graph.
Proof.
  intros [h Hh].
  assert (Hd : number_of_nodes graph / 2 = h).
  { rewrite Hh. rewrite Nat.add_comm, Nat.mul_comm.
    rewrite Nat.div_add by lia. cbn. reflexivity. }
  rewrite init_solution_length, Hd. lia.
Qed.

(** The current solution keeps the length of the initial one. *)
Lemma solution_length_constant num_steps graph j m0 num_nodes init_score st m :
  iterate G gen num_steps graph j m0 = Ok (num_nodes, init_score, st, m) ->
  exists cur,
    heap m !! curr_solution st = Some cur /\
    length cur = length (init_solution graph).
Proof.
  intros H. apply iterate_Inv in H as (-> & cur & Hcur & Hlen & _). eauto.
Qed.

End EngineFacts.

(** ** Two runs that see the same draws *)

Section SameDraws.

Variable G : globals.
Variables gen gen' : generators.

Lemma step_summary_same_draws num_steps num_nodes graph cur cs k np py np' py' :
  np_stream gen np = np_stream gen' np' ->
  uval (py_stream gen py) = uval (py_stream gen' py') ->
  step_summary G gen num_steps num_nodes graph cur cs k np py =
  step_summary G gen' num_steps num_nodes graph cur cs k np' py'.
Proof.
  intros Hnp Hpy. unfold step_summary, drawn_index. rewrite Hnp, Hpy.
  reflexivity.
Qed.

Lemma loop_body_sim num_steps num_nodes graph st m st' m' k :
  Sim gen gen' st m st' m' ->
  agree gen gen' (loop_body G gen num_steps num_nodes graph st k m)
        (loop_body G gen' num_steps num_nodes graph st' k m').
Proof.
  intros (Hcs & Hsc & (cur & Hcur & Hcur') & Hnp & Hpy).
  rewrite (loop_body_summary G gen _ _ _ _ _ _ _ Hcur).
  rewrite (loop_body_summary G gen' _ _ _ _ _ _ _ Hcur').
  rewrite <- Hcs.
  rewrite (step_summary_same_draws num_steps num_nodes graph cur (curr_score st) k
             (np_pos m) (py_pos m) (np_pos m') (py_pos m')).
  2: { specialize (Hnp 0). rewrite !Nat.add_0_r in Hnp. exact Hnp. }
  2: { specialize (Hpy 0). rewrite !Nat.add_0_r in Hpy. exact Hpy. }
  destruct (step_summary G gen' _ _ _ _ _ _ _ _) as [[[[cand sc] acc] dr]|e];
    [|reflexivity].
  unfold agree, commit, Sim. cbn [heap np_pos py_pos evals].
  repeat split.
  - destruct acc; cbn [accepted kept curr_score]; congruence.
  - destruct acc; cbn [accepted kept scores]; congruence.
  - destruct acc; cbn [accepted kept curr_solution].
    + exists cand. rewrite !lookup_last. auto.
    + exists cur.
      rewrite !lookup_app_l by (eapply lookup_lt_Some; eassumption). auto.
  - intros i. specialize (Hnp (S i)).
    rewrite !Nat.add_succ_r in Hnp. exact Hnp.
  - intros i. destruct dr; [|apply Hpy].
    specialize (Hpy (S i)). rewrite !Nat.add_succ_r in Hpy. exact Hpy.
Qed.

Lemma for_each_sim num_steps num_nodes graph ks :
  forall st m st' m',
    Sim gen gen' st m st' m' ->
    agree gen gen' (for_each ks (loop_body G gen num_steps num_nodes graph) st m)
          (for_each ks (loop_body G gen' num_steps num_nodes graph) st' m').
Proof.
  induction ks as [|k ks IH]; intros st m st' m' Hsim.
  - exact Hsim.
  - cbn [for_each]. unfold bind.
    pose proof (loop_body_sim num_steps num_nodes graph st m st' m' k Hsim) as H.
    unfold agree in H.
    destruct (loop_body G gen _ _ _ st k m) as [[s1 m1]|e1],
             (loop_body G gen' _ _ _ st' k m') as [[s2 m2]|e2];
      try contradiction.
    + apply IH, H.
    + exact H.
Qed.

Lemma simulated_annealing_sim a a' num_steps graph m m' :
  (forall i, np_stream gen (np_pos m + i) = np_stream gen' (np_pos m' + i)) ->
  (forall i, uval (py_stream gen (py_pos m + i))
             = uval (py_stream gen' (py_pos m' + i))) ->
  observe (simulated_annealing G gen a num_steps graph m) =
  observe (simulated_annealing G gen' a' num_steps graph m').
Proof.
  intros Hnp Hpy. rewrite !simulated_annealing_eq.
  destruct (obj_maxcut (init_solution graph) graph) as [s0|e]; [|reflexivity].
  set (init := init_solution graph).
  set (st0 := Locals (S (length (heap m))) s0 []).
  set (st0' := Locals (S (length (heap m'))) s0 []).
  set (m1 := Machine ((heap m ++ [init]) ++ [init]) _ _ _).
  set (m1' := Machine ((heap m' ++ [init]) ++ [init]) _ _ _).
  assert (Hsim : Sim gen gen' st0 m1 st0' m1').
  { unfold Sim, st0, st0', m1, m1'.
    cbn [curr_score scores curr_solution heap np_pos py_pos].
    rewrite !lookup_last2. eauto 10. }
  pose proof (for_each_sim num_steps (length init) graph (range num_steps)
                st0 m1 st0' m1' Hsim) as H.
  unfold agree in H.
  destruct (for_each _ (loop_body G gen _ _ _) _ _) as [[s1 m2]|e1],
           (for_each _ (loop_body G gen' _ _ _) _ _) as [[s2 m2']|e2];
    try contradiction.
  - destruct H as (Hcs & Hsc & (cur & Hcur & Hcur') & _).
    unfold observe. rewrite Hcur, Hcur', Hcs, Hsc. reflexivity.
  - cbn [observe]. rewrite H. reflexivity.
Qed.

End SameDraws.

(** ** Concrete runs *)

Lemma exp_neg_le_half (x : R) : (1 <= x)%R -> (exp (- x) <= 1 / 2)%R.
Proof.
  intros Hx. rewrite exp_Ropp.
  assert (H : (2 < exp x)%R) by (pose proof (exp_ineq1 x ltac:(lra)); lra).
  apply Rlt_le. unfold Rdiv. rewrite Rmult_1_l.
  apply Rinv_lt_contravar; lra.
Qed.

Lemma eps_inverse : (1 / eps = 1000000)%R.
Proof. unfold eps. lra. Qed.

Lemma obj_cycle4_init : obj_maxcut [0; 0; 1; 1]%Z cycle4 = Ok 2%R.
Proof. cbn. f_equal. lra. Qed.

Lemma obj_cycle4_flip0 : obj_maxcut [1; 0; 1; 1]%Z cycle4 = Ok 2%R.
Proof. cbn. f_equal. lra. Qed.

Lemma obj_cycle4_flip1 : obj_maxcut [0; 1; 1; 1]%Z cycle4 = Ok 2%R.
Proof. cbn. f_equal. lra. Qed.

Lemma obj_pair_init : obj_maxcut [0; 1]%Z pair = Ok 1%R.
Proof. cbn. f_equal. lra. Qed.

Lemma obj_pair_flip0 : obj_maxcut [1; 1]%Z pair = Ok 0%R.
Proof. reflexivity. Qed.

Lemma setup_cycle4 : setup cycle4 fresh = Ok (4, 2%R, st_cycle4, m_cycle4).
Proof.
  rewrite setup_eq. change (init_solution cycle4) with [0; 0; 1; 1]%Z.
  rewrite obj_cycle4_init. reflexivity.
Qed.

Lemma setup_pair : setup pair fresh = Ok (2, 1%R, st_pair, m_pair).
Proof.
  rewrite setup_eq. change (init_solution pair) with [0; 1]%Z.
  rewrite obj_pair_init. reflexivity.
Qed.

(** With a single step the temperature is 0. *)
Lemma single_step_temperature (t0 : R) :
  (t0 * (1 - IZR (0 + 1) / IZR 1) = 0)%R.
Proof. change (0 + 1)%Z with 1%Z. lra. Qed.

Lemma propose_cycle4 :
  propose gen_zero 4 cycle4 st_cycle4 m_cycle4 =
    Ok (2, 2%R, Machine [[0; 0; 1; 1]; [0; 0; 1; 1]; [1; 0; 1; 1]]%Z 1 0 2).
Proof.
  rewrite (propose_eq gen_zero 4 cycle4 st_cycle4 m_cycle4 [0; 0; 1; 1]%Z);
    [|reflexivity|lia|cbn; lia].
  change (flipped _ _) with [1; 0; 1; 1]%Z.
  rewrite obj_cycle4_flip0. reflexivity.
Qed.

(** On the 4-cycle flipping node 0 gives a tie, which is accepted. *)
Lemma step_cycle4 :
  loop_body G4 gen_zero 1 4 cycle4 st_cycle4 0%Z m_cycle4
    = Ok (st_cycle4', m_cycle4').
Proof.
  rewrite (loop_body_metropolis G4 gen_zero 1 4 cycle4 st_cycle4 0%Z m_cycle4
             4%R [0; 0; 1; 1]%Z 2%R).
  - reflexivity.
  - reflexivity.
  - lra.
  - reflexivity.
  - lia.
  - cbn. lia.
  - exact obj_cycle4_flip0.
  - cbn. lra.
  - rewrite single_step_temperature. pose proof eps_pos. lra.
  - cbn [curr_score st_cycle4 py_stream gen_zero uval half].
    replace (- (2 - 2) / _)%R with 0%R by (unfold Rdiv; lra).
    rewrite exp_0. lra.
Qed.

Lemma propose_pair :
  propose gen_zero 2 pair st_pair m_pair =
    Ok (2, 0%R, Machine [[0; 1]; [0; 1]; [1; 1]]%Z 1 0 2).
Proof.
  rewrite (propose_eq gen_zero 2 pair st_pair m_pair [0; 1]%Z);
    [|reflexivity|lia|cbn; lia].
  change (flipped _ _) with [1; 1]%Z.
  rewrite obj_pair_flip0. reflexivity.
Qed.

Lemma pair_prob_small :
  (exp (- (1 - 0) / (4 * (1 - IZR (0 + 1) / IZR 1) + eps)) <= 1 / 2)%R.
Proof.
  rewrite single_step_temperature.
  replace (- (1 - 0) / (0 + eps))%R with (- (1 / eps))%R
    by (pose proof eps_pos; field; lra).
  apply exp_neg_le_half. rewrite eps_inverse. lra.
Qed.

(** On the single edge flipping node 0 loses the cut; at temperature 0 the
    candidate is rejected. *)
Lemma step_pair :
  loop_body G4 gen_zero 1 2 pair st_pair 0%Z m_pair = Ok (st_pair', m_pair').
Proof.
  rewrite (loop_body_rejecting G4 gen_zero 1 2 pair st_pair 0%Z m_pair
             4%R [0; 1]%Z 0%R).
  - reflexivity.
  - reflexivity.
  - lra.
  - reflexivity.
  - lia.
  - cbn. lia.
  - exact obj_pair_flip0.
  - cbn. lra.
  - rewrite single_step_temperature. pose proof eps_pos. lra.
  - exact pair_prob_small.
Qed.

Lemma run_cycle4 :
  simulated_annealing G4 gen_zero 4 1 cycle4 fresh
    = Ok (2%R, 2, [2%R], m_cycle4').
Proof.
  rewrite simulated_annealing_eq.
  change (init_solution cycle4) with [0; 0; 1; 1]%Z. rewrite obj_cycle4_init.
  change (range 1) with [0%Z]. cbn [for_each]. unfold bind.
  change (loop_body G4 gen_zero 1 _ cycle4 _ 0%Z _)
    with (loop_body G4 gen_zero 1 4 cycle4 st_cycle4 0%Z m_cycle4).
  rewrite step_cycle4. reflexivity.
Qed.

Lemma iterate_cycle4_0 :
  iterate G4 gen_zero 1 cycle4 0 fresh = Ok (4, 2%R, st_cycle4, m_cycle4).
Proof. unfold iterate, bind. rewrite setup_cycle4. reflexivity. Qed.

Lemma iterate_cycle4_1 :
  iterate G4 gen_zero 1 cycle4 1 fresh = Ok (4, 2%R, st_cycle4', m_cycle4').
Proof.
  unfold iterate. unfold bind at 1. rewrite setup_cycle4.
  change (take 1 (range 1)) with [0%Z]. cbn [for_each]. unfold bind.
  rewrite step_cycle4. reflexivity.
Qed.

Lemma temperature_decay_cycle4 :
  temperature_decay G4 gen_zero 1 cycle4 fresh
    = Ok ([2%R], 2%R, 2%R, 2, m_cycle4').
Proof.
  rewrite temperature_decay_iterate. change (Z.to_nat 1) with 1.
  rewrite iterate_cycle4_1. reflexivity.
Qed.

Lemma step_cycle4_count :
  loop_body G4 gen_count 1 4 cycle4 st_cycle4 0%Z m_cycle4
    = Ok (st_cycle4', m_cycle4').
Proof.
  rewrite (loop_body_metropolis G4 gen_count 1 4 cycle4 st_cycle4 0%Z m_cycle4
             4%R [0; 0; 1; 1]%Z 2%R).
  - reflexivity.
  - reflexivity.
  - lra.
  - reflexivity.
  - lia.
  - cbn. lia.
  - exact obj_cycle4_flip0.
  - cbn. lra.
  - rewrite single_step_temperature. pose proof eps_pos. lra.
  - cbn [curr_score st_cycle4 py_stream gen_count uval half].
    replace (- (2 - 2) / _)%R with 0%R by (unfold Rdiv; lra).
    rewrite exp_0. lra.
Qed.

Lemma step_again :
  loop_body G4 gen_count 1 4 cycle4 st_again 0%Z m_again
    = Ok (Locals 5 2 [2%R], m_again').
Proof.
  rewrite (loop_body_metropolis G4 gen_count 1 4 cycle4 st_again 0%Z m_again
             4%R [0; 0; 1; 1]%Z 2%R).
  - reflexivity.
  - reflexivity.
  - lra.
  - reflexivity.
  - lia.
  - cbn. lia.
  - exact obj_cycle4_flip1.
  - cbn. lra.
  - rewrite single_step_temperature. pose proof eps_pos. lra.
  - cbn [curr_score st_again py_stream gen_count uval half].
    replace (- (2 - 2) / _)%R with 0%R by (unfold Rdiv; lra).
    rewrite exp_0. lra.
Qed.

Lemma run_cycle4_count :
  simulated_annealing G4 gen_count 4 1 cycle4 fresh
    = Ok (2%R, 2, [2%R], m_cycle4').
Proof.
  rewrite simulated_annealing_eq.
  change (init_solution cycle4) with [0; 0; 1; 1]%Z. rewrite obj_cycle4_init.
  change (range 1) with [0%Z]. cbn [for_each]. unfold bind.
  change (loop_body G4 gen_count 1 _ cycle4 _ 0%Z _)
    with (loop_body G4 gen_count 1 4 cycle4 st_cycle4 0%Z m_cycle4).
  rewrite step_cycle4_count. reflexivity.
Qed.

Lemma run_again :
  simulated_annealing G4 gen_count 4 1 cycle4 m_cycle4'
    = Ok (2%R, 5, [2%R], m_again').
Proof.
  rewrite simulated_annealing_eq.
  change (init_solution cycle4) with [0; 0; 1; 1]%Z. rewrite obj_cycle4_init.
  change (range 1) with [0%Z]. cbn [for_each]. unfold bind.
  change (loop_body G4 gen_count 1 _ cycle4 _ 0%Z _)
    with (loop_body G4 gen_count 1 4 cycle4 st_again 0%Z m_again).
  rewrite step_again. reflexivity.
Qed.

(** Under the evaluator's contract a graph with an odd number of nodes
    stops at the first evaluation. *)
Lemma run_path3 G gen a num_steps m :
  simulated_annealing G gen a num_steps path3 m = Raise DimensionMismatch.
Proof. rewrite simulated_annealing_eq. reflexivity. Qed.

Lemma temperature_pair :
  temperature G4 1 0 m_pair
    = Ok ((4 * (1 - IZR (0 + 1) / IZR 1))%R, m_pair).
Proof. apply temperature_eq; [reflexivity | lra]. Qed.

(** * The statements of the specification *)

(** ** The acceptance rule *)



(** ** The temperature schedule *)

(** C2.  With [init_temperature] bound to [t0] and a positive [num_steps],
    the temperature of step [k] is [t0 * (1 - (k + 1) / num_steps)]: it is
    [t0 * (1 - 1 / num_steps)] at the first step and exactly 0 at the last
    one, and the last iteration never raises [ZeroDivisionError]. *)
Theorem temperature_schedule G gen num_steps t0 :
  init_temperature G = Some t0 ->
  (0 < num_steps)%Z ->
  (forall k m, (0 <= k < num_steps)%Z ->
     temperature G num_steps k m
       = Ok ((t0 * (1 - IZR (k + 1) / IZR num_steps))%R, m)) /\
  (forall m,
     temperature G num_steps 0 m = Ok ((t0 * (1 - 1 / IZR num_steps))%R, m)) /\
  (forall m, temperature G num_steps (num_steps - 1) m = Ok (0%R, m)) /\
  (forall num_nodes graph st m,
     loop_body G gen num_steps num_nodes graph st (num_steps - 1) m
       <> Raise ZeroDivisionError).
Proof.
  intros Hg Hn.
  assert (Hn0 : IZR num_steps <> 0%R) by (apply not_0_IZR; lia).
  repeat split.
  - intros k m _. apply temperature_eq; assumption.
  - intros m. rewrite (temperature_eq _ _ _ _ _ Hg Hn0). reflexivity.
  - intros m. rewrite (temperature_eq _ _ _ _ _ Hg Hn0).
    rewrite last_temperature by exact Hn. reflexivity.
  - intros nn graph st m.
    destruct (heap m !! curr_solution st) as [cur|] eqn:Hcur.
    + rewrite (loop_body_summary _ _ _ _ _ _ _ _ _ Hcur).
      unfold step_summary. rewrite Hg.
      destruct (Req_EM_T (IZR num_steps) 0); [contradiction|].
      destruct (Nat.eqb nn 0); [discriminate|].
      destruct (Nat.ltb _ _); [|discriminate].
      destruct (obj_maxcut _ graph) as [sc|e] eqn:He.
      * destruct (Rlt_dec _ 0); [discriminate|].
        rewrite last_temperature by exact Hn.
        destruct (Req_EM_T (0 + eps) 0) as [Heps|_];
          [pose proof eps_pos; lra|].
        destruct (Rgt_dec _ _); discriminate.
      * apply obj_maxcut_errors in He. destruct He as [-> | ->]; discriminate.
    + destruct (loop_body_dangling G gen num_steps nn graph st
                  (num_steps - 1) m Hcur) as [H|[[_ H]|H]].
      * rewrite H. discriminate.
      * contradiction.
      * rewrite H. discriminate.
Qed.

(** [temperature_schedule] with [init_temperature = 4] and two steps. *)
Lemma temperature_schedule_witness :
  temperature G4 2 0 fresh = Ok ((4 * (1 - IZR (0 + 1) / IZR 2))%R, fresh) /\
  temperature G4 2 0 fresh = Ok ((4 * (1 - 1 / IZR 2))%R, fresh) /\
  temperature G4 2 (2 - 1) fresh = Ok (0%R, fresh) /\
  loop_body G4 gen_zero 2 4 cycle4 st_cycle4 (2 - 1) m_cycle4
    <> Raise ZeroDivisionError.
Proof.
  destruct (temperature_schedule G4 gen_zero 2 4 eq_refl ltac:(lia))
    as (H1 & H2 & H3 & H4).
  repeat apply conj.
  - apply H1. lia.
  - apply H2.
  - apply H3.
  - apply H4.
Defined.

(** ** The initial solution *)

(** C3, at a graph with three nodes: the initial solution built by the code
    is [[0; 1]], of length 2, not the bipartition [[0; 1; 1]] of the three
    nodes. *)
Theorem init_solution_odd_graph :
  number_of_nodes path3 = 3 /\
  init_solution path3 = [0; 1]%Z /\
  length (init_solution path3) = 2 /\
  init_solution path3 <> [0; 1; 1]%Z.
Proof.
  repeat split. discriminate.
Qed.

(** ** Parameter validation *)

(** C4 fails: calls with [num_steps <= 0], on the 4-cycle and on the
    empty graph, return normally. *)
Lemma nonpositive_steps_complete :
  simulated_annealing G4 gen_zero 4 (-1) cycle4 fresh
    = Ok (2%R, 1, [], m_cycle4) /\
  simulated_annealing G4 gen_zero 4 0 empty_graph fresh
    = Ok (0%R, 1, [], Machine [[]; []] 0 0 1).
Proof.
  split.
  - rewrite simulated_annealing_eq.
    change (init_solution cycle4) with [0; 0; 1; 1]%Z. rewrite obj_cycle4_init.
    reflexivity.
  - reflexivity.
Qed.

(** C4, as the code has it.  Nothing is validated.  With [num_steps <= 0]
    the loop body never runs and the call does what the initialisation
    does: when the first evaluation returns, the call returns the initial
    score, the initial solution and an empty trace, without drawing; when
    the first evaluation raises, the call raises that exception of the
    evaluator.  On the empty graph with [num_steps >= 1] the
    initialisation succeeds and the first iteration raises the
    [ValueError] of [np.random.randint(0, 0)]. *)
Theorem no_parameter_validation G gen a num_steps graph m :
  (forall s0,
     (num_steps <= 0)%Z ->
     obj_maxcut (init_solution graph) graph = Ok s0 ->
     simulated_annealing G gen a num_steps graph m =
       Ok (s0, S (length (heap m)), [],
           Machine ((heap m ++ [init_solution graph]) ++ [init_solution graph])
                   (np_pos m) (py_pos m) (S (evals m))) /\
     observe (simulated_annealing G gen a num_steps graph m)
       = Ok (s0, init_solution graph, [])) /\
  (forall e,
     (num_steps <= 0)%Z ->
     obj_maxcut (init_solution graph) graph = Raise e ->
     simulated_annealing G gen a num_steps graph m = Raise e /\
     (e = DimensionMismatch \/ e = IndexError)) /\
  (forall t0,
     (1 <= num_steps)%Z ->
     graph = empty_graph ->
     init_temperature G = Some t0 ->
     setup graph m =
       Ok (0, 0%R, Locals (S (length (heap m))) 0 [],
           Machine ((heap m ++ [[]]) ++ [[]])
                   (np_pos m) (py_pos m) (S (evals m))) /\
     simulated_annealing G gen a num_steps graph m = Raise ValueError).
Proof.
  split; [|split].
  - intros s0 Hn Hs.
    assert (H : simulated_annealing G gen a num_steps graph m =
       Ok (s0, S (length (heap m)), [],
           Machine ((heap m ++ [init_solution graph]) ++ [init_solution graph])
                   (np_pos m) (py_pos m) (S (evals m)))).
    { unfold simulated_annealing.
      rewrite (bind_eq_Ok _ _ _ _ _
                 (temperature_decay_no_steps G gen _ _ m _ Hn Hs)).
      reflexivity. }
    split; [exact H|]. rewrite H. unfold observe. cbn [heap].
    rewrite lookup_last2. reflexivity.
  - intros e _ He. split.
    + rewrite simulated_annealing_eq, He. reflexivity.
    + exact (obj_maxcut_errors _ _ _ He).
  - intros t0 Hn -> Hg. split; [rewrite setup_eq; reflexivity|].
    unfold simulated_annealing.
    erewrite bind_eq_Raise; [reflexivity|].
    apply temperature_decay_first_raise with (s0 := 0%R); [lia | reflexivity |].
    assert (Hn0 : IZR num_steps <> 0%R) by (apply not_0_IZR; lia).
    unfold loop_body.
    rewrite (bind_eq_Ok _ _ _ _ _ (temperature_eq G _ _ _ _ Hg Hn0)).
    erewrite bind_eq_Raise; [reflexivity|].
    apply propose_no_nodes with (cur := []). cbn [heap curr_solution].
    apply lookup_last2.
Qed.

(** [no_parameter_validation]: zero steps on the 4-cycle, where the first
    evaluation returns; zero steps on the path of three nodes, where it
    raises; one step on the empty graph. *)
Lemma no_parameter_validation_witness :
  (simulated_annealing G4 gen_zero 4 0 cycle4 fresh
     = Ok (2%R, 1, [], m_cycle4) /\
   observe (simulated_annealing G4 gen_zero 4 0 cycle4 fresh)
     = Ok (2%R, [0; 0; 1; 1]%Z, [])) /\
  (simulated_annealing G4 gen_zero 4 0 path3 fresh = Raise DimensionMismatch /\
   (DimensionMismatch = DimensionMismatch \/ DimensionMismatch = IndexError)) /\
  (setup empty_graph fresh
     = Ok (0, 0%R, Locals 1 0 [], Machine [[]; []] 0 0 1) /\
   simulated_annealing G4 gen_zero 4 1 empty_graph fresh = Raise ValueError).
Proof.
  split; [|split].
  - apply (proj1 (no_parameter_validation G4 gen_zero 4 0 cycle4 fresh) 2%R).
    + lia.
    + exact obj_cycle4_init.
  - apply (proj1 (proj2 (no_parameter_validation G4 gen_zero 4 0 path3 fresh))
             DimensionMismatch).
    + lia.
    + reflexivity.
  - apply (proj2 (proj2 (no_parameter_validation G4 gen_zero 4 1 empty_graph
                           fresh)) 4%R).
    + lia.
    + reflexivity.
    + reflexivity.
Defined.

(** ** The proposed move *)

(** C5.  At every step the candidate is a fresh copy of the current
    solution with exactly one label flipped: it lives at another address,
    the current list is left as it was, the two lists have the same length
    and differ at the drawn position and nowhere else, where the label [x]
    became [(x + 1) mod 2]; all labels of both lists are 0 or 1. *)
Theorem candidate_single_flip G gen num_steps graph j m0
    num_nodes init_score st m new_solution new_score m1 :
  iterate G gen num_steps graph j m0 = Ok (num_nodes, init_score, st, m) ->
  propose gen num_nodes graph st m = Ok (new_solution, new_score, m1) ->
  exists cur cand idx x,
    heap m !! curr_solution st = Some cur /\
    heap m1 !! curr_solution st = Some cur /\
    heap m1 !! new_solution = Some cand /\
    new_solution <> curr_solution st /\
    length cand = length cur /\
    cur !! idx = Some x /\
    cand !! idx = Some ((x + 1) mod 2)%Z /\
    (forall i, cand !! i = cur !! i <-> i <> idx) /\
    Forall is_label cur /\ Forall is_label cand.
Proof.
  intros Hit Hp.
  apply iterate_Inv in Hit as (_ & cur & Hcur & Hlen & Hlab & _).
  apply propose_Ok_inv in Hp as (cur' & Hcur' & Hpos & Hidx & _ & -> & ->).
  rewrite Hcur in Hcur'. injection Hcur' as <-.
  set (idx := drawn_index gen num_nodes (np_pos m)) in *.
  destruct (lookup_lt_is_Some_2 _ _ Hidx) as [x Hx].
  pose proof (lookup_lt_Some _ _ _ Hcur) as Hlt.
  exists cur, (flipped cur idx), idx, x. cbn [heap].
  repeat split.
  - exact Hcur.
  - rewrite lookup_app_l by exact Hlt. exact Hcur.
  - apply lookup_last.
  - lia.
  - apply flipped_length.
  - exact Hx.
  - unfold flipped. rewrite Hx. apply list_lookup_insert_eq. exact Hidx.
  - apply flipped_differs; assumption.
  - apply flipped_differs; assumption.
  - exact Hlab.
  - apply flipped_labels. exact Hlab.
Qed.

(** [candidate_single_flip] at the first iteration on the 4-cycle. *)
Lemma candidate_single_flip_witness :
  exists cur cand idx x,
    heap m_cycle4 !! curr_solution st_cycle4 = Some cur /\
    heap (Machine [[0; 0; 1; 1]; [0; 0; 1; 1]; [1; 0; 1; 1]]%Z 1 0 2)
      !! curr_solution st_cycle4 = Some cur /\
    heap (Machine [[0; 0; 1; 1]; [0; 0; 1; 1]; [1; 0; 1; 1]]%Z 1 0 2)
      !! 2 = Some cand /\
    2 <> curr_solution st_cycle4 /\
    length cand = length cur /\
    cur !! idx = Some x /\
    cand !! idx = Some ((x + 1) mod 2)%Z /\
    (forall i, cand !! i = cur !! i <-> i <> idx) /\
    Forall is_label cur /\ Forall is_label cand.
Proof.
  exact (candidate_single_flip G4 gen_zero 1 cycle4 0 fresh 4 2%R
           st_cycle4 m_cycle4 2 2%R _ iterate_cycle4_0 propose_cycle4).
Defined.

(** ** The trace *)

(** An iteration that returns has appended the score of its candidate. *)
Lemma loop_body_appends G gen num_steps num_nodes graph st k m st' m' :
  loop_body G gen num_steps num_nodes graph st k m = Ok (st', m') ->
  exists new_solution new_score m1,
    propose gen num_nodes graph st m = Ok (new_solution, new_score, m1) /\
    scores st' = scores st ++ [new_score].
Proof.
  intros H.
  apply loop_body_Ok_inv in H
    as (cur & cand & sc & acc & dr & Hcur & Hsum & Hc).
  apply step_summary_Ok_inv in Hsum
    as (t0 & _ & _ & Hpos & Hidx & -> & Hsc & _).
  rewrite (propose_eq _ _ _ _ _ _ Hcur Hpos Hidx), Hsc.
  do 3 eexists. split; [reflexivity|].
  injection Hc as -> _. destruct acc; reflexivity.
Qed.

(** The trace of a run that returns: one entry per element of
    [range(num_steps)], entry [i] being the score of the candidate
    proposed in the state in which iteration [i] was entered. *)
Lemma temperature_decay_trace G gen num_steps graph m0
    trace init_score score sol m :
  temperature_decay G gen num_steps graph m0
    = Ok (trace, init_score, score, sol, m) ->
  length trace = Z.to_nat num_steps /\
  forall i sc,
    trace !! i = Some sc ->
    exists num_nodes st mi new_solution m1,
      iterate G gen num_steps graph i m0 = Ok (num_nodes, init_score, st, mi) /\
      propose gen num_nodes graph st mi = Ok (new_solution, sc, m1).
Proof.
  unfold temperature_decay. intros H.
  apply bind_Ok in H as ([[nn s0] st0] & m1 & Hs & H).
  apply bind_Ok in H as (st & m2 & Hl & H).
  injection H as <- <- <- <- <-.
  assert (H0 : iterate G gen num_steps graph 0 m0 = Ok (nn, s0, st0, m1)).
  { unfold iterate, bind. rewrite Hs. reflexivity. }
  pose proof (setup_Inv _ _ _ _ _ _ Hs) as (_ & _ & _ & _ & Hnil & _).
  rewrite <- range_length.
  enough (Hfin :
            length (scores st) = length (range num_steps) /\
            (iterate G gen num_steps graph (length (range num_steps)) m0
               = Ok (nn, s0, st, m2) /\
             forall i' sc,
               scores st !! i' = Some sc ->
               exists num_nodes st' mi new_solution m1',
                 iterate G gen num_steps graph i' m0
                   = Ok (num_nodes, s0, st', mi) /\
                 propose gen num_nodes graph st' mi
                   = Ok (new_solution, sc, m1')))
    by (destruct Hfin as (Hlen & _ & Hall); split; assumption).
  refine (for_each_indexed _ _
    (fun i s mm =>
       length (scores s) = i /\
       (iterate G gen num_steps graph i m0 = Ok (nn, s0, s, mm) /\
        forall i' sc,
          scores s !! i' = Some sc ->
          exists num_nodes st' mi new_solution m1',
            iterate G gen num_steps graph i' m0
              = Ok (num_nodes, s0, st', mi) /\
            propose gen num_nodes graph st' mi = Ok (new_solution, sc, m1')))
    _ st0 m1 st m2 _ Hl).
  - intros i s k mm s' mm' Hk (Hlen & Hit & Hall) Hb.
    pose proof (lookup_lt_Some _ _ _ Hk) as Hi. rewrite range_length in Hi.
    rewrite (range_lookup _ _ Hi) in Hk. injection Hk as <-.
    destruct (loop_body_appends _ _ _ _ _ _ _ _ _ _ Hb)
      as (ns & sc & m1' & Hp & Hsc).
    split; [rewrite Hsc, length_app; cbn; lia|]. split.
    + rewrite (iterate_succ _ _ _ _ _ _ Hi). unfold bind.
      rewrite Hit, Hb. reflexivity.
    + intros i' sc' Hlook. rewrite Hsc in Hlook.
      apply lookup_app_Some in Hlook as [Hlook|[Hge Hlook]].
      * apply Hall, Hlook.
      * destruct (i' - length (scores s)) as [|d] eqn:Hd; [|discriminate].
        injection Hlook as <-.
        assert (i' = i) as -> by lia.
        exists nn, s, mm, ns, m1'. auto.
  - split; [rewrite Hnil; reflexivity|]. split; [exact H0|].
    intros i' sc Hlook. rewrite Hnil in Hlook. discriminate.
Qed.

Lemma temperature_decay_cycle4_negative :
  temperature_decay G4 gen_zero (-1) cycle4 fresh
    = Ok ([], 2%R, 2%R, 1, m_cycle4).
Proof.
  apply (temperature_decay_no_steps G4 gen_zero (-1) cycle4 fresh 2%R);
    [lia | exact obj_cycle4_init].
Qed.

(** C6 fails: with [num_steps = -1] the call returns with an empty trace,
    whose length is not [num_steps]. *)
Lemma negative_steps_empty_trace :
  temperature_decay G4 gen_zero (-1) cycle4 fresh
    = Ok ([], 2%R, 2%R, 1, m_cycle4) /\
  Z.of_nat (length (@nil R)) <> (-1)%Z.
Proof.
  split; [exact temperature_decay_cycle4_negative | discriminate].
Qed.

(** C6, as the code has it.  Every iteration that returns has appended the
    score of its candidate to the trace, whatever the acceptance test
    decided; hence the trace of a run that returns has [max(num_steps, 0)]
    entries ([num_steps] of them when [num_steps >= 0], none when it is
    negative), and entry [i] is the score of the candidate proposed in
    iteration [i]. *)
Theorem trace_length G gen num_steps graph :
  (forall num_nodes st k m st' m',
      loop_body G gen num_steps num_nodes graph st k m = Ok (st', m') ->
      exists new_solution new_score m1,
        propose gen num_nodes graph st m = Ok (new_solution, new_score, m1) /\
        scores st' = scores st ++ [new_score]) /\
  (forall m0 trace init_score score sol m,
      temperature_decay G gen num_steps graph m0
        = Ok (trace, init_score, score, sol, m) ->
      Z.of_nat (length trace) = Z.max 0 num_steps /\
      ((0 <= num_steps)%Z -> Z.of_nat (length trace) = num_steps) /\
      forall i sc,
        trace !! i = Some sc ->
        exists num_nodes st mi new_solution m1,
          iterate G gen num_steps graph i m0
            = Ok (num_nodes, init_score, st, mi) /\
          propose gen num_nodes graph st mi = Ok (new_solution, sc, m1)).
Proof.
  split.
  - intros nn st k m st' m'. apply loop_body_appends.
  - intros m0 trace s0 score sol m H.
    apply temperature_decay_trace in H as [Hlen Hall].
    split; [lia|]. split; [lia | exact Hall].
Qed.

(** [trace_length] for the run of one step on the 4-cycle, and for the
    run with [num_steps = -1]. *)
Lemma trace_length_witness :
  (exists new_solution new_score m1,
      propose gen_zero 4 cycle4 st_cycle4 m_cycle4
        = Ok (new_solution, new_score, m1) /\
      scores st_cycle4' = scores st_cycle4 ++ [new_score]) /\
  (Z.of_nat (length [2%R]) = Z.max 0 1 /\
   Z.of_nat (length [2%R]) = 1%Z /\
   exists num_nodes st mi new_solution m1,
     iterate G4 gen_zero 1 cycle4 0 fresh = Ok (num_nodes, 2%R, st, mi) /\
     propose gen_zero num_nodes cycle4 st mi = Ok (new_solution, 2%R, m1)) /\
  Z.of_nat (length (@nil R)) = Z.max 0 (-1).
Proof.
  split; [|split].
  - exact (proj1 (trace_length G4 gen_zero 1 cycle4)
             4 st_cycle4 0%Z m_cycle4 st_cycle4' m_cycle4' step_cycle4).
  - destruct (proj2 (trace_length G4 gen_zero 1 cycle4)
                fresh [2%R] 2%R 2%R 2 m_cycle4' temperature_decay_cycle4)
      as (Hmax & Hsteps & Hall).
    split; [exact Hmax|]. split; [apply Hsteps; lia|].
    apply (Hall 0 2%R). reflexivity.
  - exact (proj1 (proj2 (trace_length G4 gen_zero (-1) cycle4)
                    fresh [] 2%R 2%R 1 m_cycle4
                    temperature_decay_cycle4_negative)).
Defined.

(** ** Rejected moves *)

(** C7.  An iteration whose candidate is rejected ([delta >= 0] and
    [prob <= u]) ends with the same [curr_solution] reference, the same
    contents behind it and the same [curr_score] as at its entry; it has
    consumed one draw of [random.random()] (and one of [randint]) and made
    one call to [obj_maxcut]. *)
Theorem rejected_step_frame G gen num_steps num_nodes graph st k m
    temp new_solution new_score m1 st' m' :
  temperature G num_steps k m = Ok (temp, m) ->
  propose gen num_nodes graph st m = Ok (new_solution, new_score, m1) ->
  loop_body G gen num_steps num_nodes graph st k m = Ok (st', m') ->
  (0 <= curr_score st - new_score)%R ->
  (exp (- (curr_score st - new_score) / (temp + eps))
     <= uval (py_stream gen (py_pos m1)))%R ->
  curr_solution st' = curr_solution st /\
  curr_score st' = curr_score st /\
  heap m' !! curr_solution st' = heap m !! curr_solution st /\
  py_pos m' = S (py_pos m) /\
  np_pos m' = S (np_pos m) /\
  evals m' = S (evals m).
Proof.
  intros Ht Hp Hb Hd Hu.
  unfold loop_body in Hb.
  rewrite (bind_eq_Ok _ _ _ _ _ Ht), (bind_eq_Ok _ _ _ _ _ Hp) in Hb.
  apply accept_Ok_inv in Hb as [(Hlt & _)|(_ & _ & -> & [(Hgt & _)|(_ & ->)])];
    [lra | lra |].
  apply propose_Ok_inv in Hp as (cur & Hcur & _ & _ & _ & _ & ->).
  cbn [kept drew curr_solution curr_score heap py_pos np_pos evals].
  repeat split.
  rewrite lookup_app_l by (eapply lookup_lt_Some; exact Hcur). reflexivity.
Qed.

(** [rejected_step_frame] for the rejected flip on the single edge. *)
Lemma rejected_step_frame_witness :
  curr_solution st_pair' = curr_solution st_pair /\
  curr_score st_pair' = curr_score st_pair /\
  heap m_pair' !! curr_solution st_pair' = heap m_pair !! curr_solution st_pair /\
  py_pos m_pair' = S (py_pos m_pair) /\
  np_pos m_pair' = S (np_pos m_pair) /\
  evals m_pair' = S (evals m_pair).
Proof.
  apply (rejected_step_frame G4 gen_zero 1 2 pair st_pair 0%Z m_pair
           (4 * (1 - IZR (0 + 1) / IZR 1))%R 2 0%R
           (Machine [[0; 1]; [0; 1]; [1; 1]]%Z 1 0 2) st_pair' m_pair').
  - exact temperature_pair.
  - exact propose_pair.
  - exact step_pair.
  - cbn. lra.
  - exact pair_prob_small.
Defined.

(** ** Score consistency *)

(** C8.  When the loop is entered and after each iteration, the recorded
    [curr_score] is the value of [obj_maxcut] on the list that
    [curr_solution] refers to; the same holds for the score and solution
    that [simulated_annealing] returns. *)
Theorem score_consistency G gen num_steps graph :
  (forall j m0 num_nodes init_score st m,
      iterate G gen num_steps graph j m0 = Ok (num_nodes, init_score, st, m) ->
      exists cur,
        heap m !! curr_solution st = Some cur /\
        obj_maxcut cur graph = Ok (curr_score st)) /\
  (forall a m0 score sol trace m,
      simulated_annealing G gen a num_steps graph m0
        = Ok (score, sol, trace, m) ->
      exists v, heap m !! sol = Some v /\ obj_maxcut v graph = Ok score).
Proof.
  split.
  - intros j m0 nn s0 st m H.
    apply iterate_Inv in H as (_ & cur & Hcur & _ & _ & Hobj). eauto.
  - intros a m0 score sol trace m H.
    apply simulated_annealing_Ok_inv in H as (s0 & H).
    apply temperature_decay_Ok_inv in H as (nn & st & Hit & _ & -> & ->).
    apply iterate_Inv in Hit as (_ & cur & Hcur & _ & _ & Hobj). eauto.
Qed.

(** [score_consistency] after one iteration on the 4-cycle and for the
    returned values. *)
Lemma score_consistency_witness :
  (exists cur,
      heap m_cycle4' !! curr_solution st_cycle4' = Some cur /\
      obj_maxcut cur cycle4 = Ok (curr_score st_cycle4')) /\
  (exists v, heap m_cycle4' !! 2 = Some v /\ obj_maxcut v cycle4 = Ok 2%R).
Proof.
  split.
  - exact (proj1 (score_consistency G4 gen_zero 1 cycle4)
             1 fresh 4 2%R st_cycle4' m_cycle4' iterate_cycle4_1).
  - exact (proj2 (score_consistency G4 gen_zero 1 cycle4)
             4%R fresh 2%R 2 [2%R] m_cycle4' run_cycle4).
Defined.

(** ** Determinism *)

(** C9 fails: [simulated_annealing] has no seed parameter, and two
    successive calls with the same arguments, the second starting where
    the first left the generators, return different solutions. *)
Lemma repeated_runs_differ :
  simulated_annealing G4 gen_count 4 1 cycle4 fresh
    = Ok (2%R, 2, [2%R], m_cycle4') /\
  observe (simulated_annealing G4 gen_count 4 1 cycle4 fresh)
    = Ok (2%R, [1; 0; 1; 1]%Z, [2%R]) /\
  observe (simulated_annealing G4 gen_count 4 1 cycle4 m_cycle4')
    = Ok (2%R, [0; 1; 1; 1]%Z, [2%R]) /\
  observe (simulated_annealing G4 gen_count 4 1 cycle4 fresh)
    <> observe (simulated_annealing G4 gen_count 4 1 cycle4 m_cycle4').
Proof.
  rewrite run_cycle4_count, run_again. repeat split. discriminate.
Qed.

(** C9, as the code has it.  The result of a call is determined by the
    graph, [num_steps], the module-level [init_temperature] and the draws
    the two generators deliver from their positions at entry: two calls
    that see the same draws return the same score, solution and trace (or
    raise the same exception), whatever their heaps and whatever is passed
    for the parameter [init_temperature]. *)
Theorem same_draws_same_result G gen gen' a a' num_steps graph m m' :
  (forall i, np_stream gen (np_pos m + i) = np_stream gen' (np_pos m' + i)) ->
  (forall i, uval (py_stream gen (py_pos m + i))
             = uval (py_stream gen' (py_pos m' + i))) ->
  observe (simulated_annealing G gen a num_steps graph m) =
  observe (simulated_annealing G gen' a' num_steps graph m').
Proof.
  apply simulated_annealing_sim.
Qed.

(** [same_draws_same_result]: a call from the fresh machine and a call from
    the machine a previous call left behind, with generators that deliver
    the same draws, and with different values passed for the parameter. *)
Lemma same_draws_same_result_witness :
  observe (simulated_annealing G4 gen_zero 4 1 cycle4 fresh) =
  observe (simulated_annealing G4 gen_zero 7 1 cycle4 m_cycle4').
Proof.
  apply (same_draws_same_result G4 gen_zero gen_zero 4%R 7%R 1 cycle4
           fresh m_cycle4').
  - intros i. reflexivity.
  - intros i. reflexivity.
Defined.

(** ** The temperature parameter *)

(** C10.  The value passed for the parameter [init_temperature] of
    [simulated_annealing] does not reach the computation: any two values
    give the same result, and when the module-level [init_temperature] is
    unbound a run with at least one step raises [NameError] whatever was
    passed. *)
Theorem init_temperature_argument_ignored G gen num_steps graph m :
  (forall a b,
     simulated_annealing G gen a num_steps graph m
       = simulated_annealing G gen b num_steps graph m) /\
  (forall a s0,
     init_temperature G = None ->
     (0 < num_steps)%Z ->
     obj_maxcut (init_solution graph) graph = Ok s0 ->
     simulated_annealing G gen a num_steps graph m = Raise NameError).
Proof.
  split; [reflexivity|].
  intros a s0 Hg Hn Hs. unfold simulated_annealing.
  erewrite bind_eq_Raise; [reflexivity|].
  apply temperature_decay_first_raise with (s0 := s0); [exact Hn | exact Hs |].
  unfold loop_body.
  rewrite (bind_eq_Raise _ _ _ _ (temperature_unbound _ _ _ _ Hg)). reflexivity.
Qed.

(** [init_temperature_argument_ignored]: passing 4 or 1000 makes no
    difference, and with the global unbound the call raises [NameError]
    although 4 was passed. *)
Lemma init_temperature_argument_ignored_witness :
  simulated_annealing G4 gen_zero 4 1 cycle4 fresh
    = simulated_annealing G4 gen_zero 1000 1 cycle4 fresh /\
  simulated_annealing G_unbound gen_zero 4 1 cycle4 fresh = Raise NameError.
Proof.
  split.
  - exact (proj1 (init_temperature_argument_ignored G4 gen_zero 1 cycle4 fresh)
             4%R 1000%R).
  - apply (proj2 (init_temperature_argument_ignored G_unbound gen_zero 1
                    cycle4 fresh) 4%R 2%R).
    + reflexivity.
    + lia.
    + exact obj_cycle4_init.
Defined.

(** * Further properties of the code *)

(** ** Distances *)

Lemma hamming_refl (a : list Z) : hamming a a = 0.
Proof.
  induction a as [|x a IH]; [reflexivity|].
  cbn [hamming]. rewrite Z.eqb_refl, IH. reflexivity.
Qed.

Lemma hamming_insert (a b : list Z) (i : nat) (v : Z) :
  hamming a (<[i := v]> b) <= S (hamming a b).
Proof.
  revert b i.
  induction a as [|x a IH]; intros [|y b] [|i]; cbn -[Z.eqb]; try lia.
  - destruct (Z.eqb x v), (Z.eqb x y); lia.
  - eapply Nat.le_trans; [apply Nat.add_le_mono_l, (IH b i) | lia].
Qed.

Lemma hamming_flipped (a b : list Z) (idx : nat) :
  hamming a (flipped b idx) <= S (hamming a b).
Proof.
  unfold flipped. destruct (b !! idx); [apply hamming_insert | lia].
Qed.

(** ** What one iteration and a whole run do to the machine *)

Section Progress.

Variable G : globals.
Variable gen : generators.

(** One iteration that returns: the heap grows by the candidate, one
    [randint] draw and one evaluation are consumed, at most one draw of
    [random.random()], the trace grows by the candidate's score, and the
    current solution and score are either kept or replaced by the
    candidate and its score. *)
Lemma loop_body_progress num_steps num_nodes graph st k m st' m' :
  loop_body G gen num_steps num_nodes graph st k m = Ok (st', m') ->
  exists cur sc,
    heap m !! curr_solution st = Some cur /\
    drawn_index gen num_nodes (np_pos m) < length cur /\
    heap m' = heap m ++ [flipped cur (drawn_index gen num_nodes (np_pos m))] /\
    np_pos m' = S (np_pos m) /\
    evals m' = S (evals m) /\
    (py_pos m' = py_pos m \/ py_pos m' = S (py_pos m)) /\
    scores st' = scores st ++ [sc] /\
    obj_maxcut (flipped cur (drawn_index gen num_nodes (np_pos m))) graph
      = Ok sc /\
    ((curr_solution st' = curr_solution st /\ curr_score st' = curr_score st) \/
     (curr_solution st' = length (heap m) /\ curr_score st' = sc)).
Proof.
  intros H.
  apply loop_body_Ok_inv in H
    as (cur & cand & sc & acc & dr & Hcur & Hsum & Hc).
  apply step_summary_Ok_inv in Hsum as (t0 & _ & _ & _ & Hidx & -> & Hobj & _).
  unfold commit in Hc. injection Hc as -> ->.
  exists cur, sc. cbn [heap np_pos py_pos evals].
  repeat split; auto.
  - destruct dr; auto.
  - destruct acc; reflexivity.
  - destruct acc; cbn [accepted kept curr_solution curr_score]; auto.
Qed.

(** The state at the entry of iteration [j], relative to the machine in
    which the call started. *)
Lemma iterate_progress num_steps graph j m0 num_nodes init_score st m :
  iterate G gen num_steps graph j m0 = Ok (num_nodes, init_score, st, m) ->
  exists cands cur,
    heap m = ((heap m0 ++ [init_solution graph]) ++ [init_solution graph])
             ++ cands /\
    length cands = Nat.min j (Z.to_nat num_steps) /\
    np_pos m = np_pos m0 + Nat.min j (Z.to_nat num_steps) /\
    evals m = S (evals m0) + Nat.min j (Z.to_nat num_steps) /\
    py_pos m0 <= py_pos m <= py_pos m0 + Nat.min j (Z.to_nat num_steps) /\
    length (scores st) = Nat.min j (Z.to_nat num_steps) /\
    (curr_score st = init_score \/ In (curr_score st) (scores st)) /\
    heap m !! curr_solution st = Some cur /\
    length cur = length (init_solution graph) /\
    Forall is_label cur /\
    hamming (init_solution graph) cur <= Nat.min j (Z.to_nat num_steps) /\
    length (heap m0) < curr_solution st /\
    Forall2 (fun c sc => obj_maxcut c graph = Ok sc /\
                         length c = length (init_solution graph))
            cands (scores st).
Proof.
  intros H. apply iterate_Ok_inv in H as (st0 & m1 & Hs & Hl).
  rewrite setup_eq in Hs.
  destruct (obj_maxcut _ graph) as [s0|] eqn:Hobj; [|discriminate].
  injection Hs as <- <- <- <-.
  rewrite <- range_length, <- length_take.
  set (init := init_solution graph) in *.
  set (h1 := (heap m0 ++ [init]) ++ [init]) in *.
  refine (for_each_indexed _ _
    (fun i s mm =>
       exists cands cur,
         heap mm = h1 ++ cands /\
         length cands = i /\
         np_pos mm = np_pos m0 + i /\
         evals mm = S (evals m0) + i /\
         py_pos m0 <= py_pos mm <= py_pos m0 + i /\
         length (scores s) = i /\
         (curr_score s = s0 \/ In (curr_score s) (scores s)) /\
         heap mm !! curr_solution s = Some cur /\
         length cur = length init /\
         Forall is_label cur /\
         hamming init cur <= i /\
         length (heap m0) < curr_solution s /\
         Forall2 (fun c sc => obj_maxcut c graph = Ok sc /\
                              length c = length init)
                 cands (scores s))
    _ _ _ st m _ Hl).
  - intros i s k mm s' mm' _
      (cands & cur & Hh & Hlen & Hnp & Hev & Hpy & Hsc & Hcs & Hcur & Hl1
         & Hlab & Hham & Hloc & Hall) Hb.
    apply loop_body_progress in Hb
      as (cur' & sc & Hcur' & Hidx & Hh' & Hnp' & Hev' & Hpy' & Hsc' & Hobj'
            & Hupd).
    rewrite Hcur in Hcur'. injection Hcur' as <-.
    set (cand := flipped cur _) in *.
    assert (Hall' : Forall2 (fun c sc0 => obj_maxcut c graph = Ok sc0 /\
                                         length c = length init)
                            (cands ++ [cand]) (scores s ++ [sc])).
    { apply Forall2_app; [exact Hall|]. constructor; [|constructor].
      split; [exact Hobj'|]. unfold cand. rewrite flipped_length. exact Hl1. }
    assert (Hhl : length (heap mm) = length h1 + i)
      by (rewrite Hh, length_app; lia).
    assert (Hh1 : length h1 = S (S (length (heap m0))))
      by (unfold h1; rewrite !length_snoc; reflexivity).
    destruct Hupd as [[Hsol Hscore]|[Hsol Hscore]].
    + exists (cands ++ [cand]), cur.
      rewrite Hh', Hh, Hsol, Hscore, Hsc', !length_app. cbn [length].
      repeat split; try lia.
      * rewrite app_assoc. reflexivity.
      * destruct Hcs as [Hcs|Hcs]; [left; exact Hcs|].
        right. apply in_or_app. left. exact Hcs.
      * rewrite <- Hh.
        rewrite lookup_app_l by (eapply lookup_lt_Some; exact Hcur).
        exact Hcur.
      * exact Hlab.
      * exact Hall'.
    + exists (cands ++ [cand]), cand.
      rewrite Hh', Hsol, Hscore, Hsc', !length_app. cbn [length].
      repeat split; try lia.
      * rewrite Hh, app_assoc. reflexivity.
      * right. apply in_or_app. right. left. reflexivity.
      * apply lookup_last.
      * unfold cand. rewrite flipped_length. exact Hl1.
      * apply flipped_labels, Hlab.
      * pose proof (hamming_flipped init cur
                      (drawn_index gen (length init) (np_pos mm))).
        fold cand in H. lia.
      * exact Hall'.
  - exists [], init. cbn [heap np_pos py_pos evals scores curr_score
                          curr_solution length].
    rewrite app_nil_r, hamming_refl.
    repeat split; try lia.
    + left. reflexivity.
    + apply lookup_last2.
    + apply init_solution_labels.
    + constructor.
Qed.

(** A loop that raises does so in its body, for one of its elements and in
    a state of the invariant. *)
Lemma for_each_Raise_In {A St} (P : St -> machine -> Prop)
    (body : St -> A -> M St) (xs : list A) e :
  (forall s x m s' m', P s m -> body s x m = Ok (s', m') -> P s' m') ->
  forall s m,
    P s m -> for_each xs body s m = Raise e ->
    exists s1 x m1, In x xs /\ P s1 m1 /\ body s1 x m1 = Raise e.
Proof.
  intros Hbody. induction xs as [|x xs IH]; intros s m HP H.
  - discriminate.
  - cbn [for_each] in H. unfold bind in H.
    destruct (body s x m) as [[s1 m1]|e1] eqn:Hb.
    + destruct (IH s1 m1) as (s2 & y & m2 & Hin & HP2 & H2);
        [eapply Hbody; eauto | exact H |].
      exists s2, y, m2. split; [right; exact Hin | auto].
    + injection H as ->. exists s, x, m. split; [left; reflexivity | auto].
Qed.

(** An exception of a run comes from the first evaluation or from an
    iteration for some [k] of [range(num_steps)], started in a state of
    the invariant. *)
Lemma simulated_annealing_Raise_inv a num_steps graph m e :
  simulated_annealing G gen a num_steps graph m = Raise e ->
  obj_maxcut (init_solution graph) graph = Raise e \/
  exists st k m1 cur,
    (0 <= k < num_steps)%Z /\
    heap m1 !! curr_solution st = Some cur /\
    length cur = length (init_solution graph) /\
    step_summary G gen num_steps (length (init_solution graph)) graph cur
                 (curr_score st) k (np_pos m1) (py_pos m1) = Raise e.
Proof.
  rewrite simulated_annealing_eq.
  destruct (obj_maxcut (init_solution graph) graph) as [s0|e0] eqn:Hs;
    [|intros [= ->]; left; reflexivity].
  destruct (for_each _ _ _ _) as [[st m']|e1] eqn:Hl; [discriminate|].
  intros [= ->]. right.
  apply (for_each_Raise_In (Inv graph (length (init_solution graph)))) in Hl
    as (s1 & k & m1 & Hin & (cur & Hcur & Hlen & _) & Hb).
  - exists s1, k, m1, cur. apply range_In in Hin.
    rewrite (loop_body_summary _ _ _ _ _ _ _ _ _ Hcur) in Hb.
    destruct (step_summary _ _ _ _ _ _ _ _ _ _) as [?|e2] eqn:He;
      [discriminate|].
    injection Hb as ->. auto.
  - intros s k m1 s' m1'. apply loop_body_Inv.
  - exists (init_solution graph). cbn [heap curr_solution curr_score].
    rewrite lookup_last2. auto using init_solution_labels.
Qed.

(** The state in which a call returns, relative to the machine in which
    it started. *)
Lemma run_progress a num_steps graph m0 score sol trace m :
  simulated_annealing G gen a num_steps graph m0 = Ok (score, sol, trace, m) ->
  exists init_score cands cur,
    temperature_decay G gen num_steps graph m0
      = Ok (trace, init_score, score, sol, m) /\
    length trace = Z.to_nat num_steps /\
    heap m = ((heap m0 ++ [init_solution graph]) ++ [init_solution graph])
             ++ cands /\
    length cands = length trace /\
    np_pos m = np_pos m0 + length trace /\
    evals m = S (evals m0) + length trace /\
    py_pos m0 <= py_pos m <= py_pos m0 + length trace /\
    (score = init_score \/ In score trace) /\
    heap m !! sol = Some cur /\
    length cur = length (init_solution graph) /\
    Forall is_label cur /\
    hamming (init_solution graph) cur <= length trace /\
    length (heap m0) < sol /\
    Forall2 (fun c sc => obj_maxcut c graph = Ok sc /\
                         length c = length (init_solution graph))
            cands trace.
Proof.
  intros H. apply simulated_annealing_Ok_inv in H as (s0 & Htd).
  pose proof Htd as Hit.
  apply temperature_decay_Ok_inv in Hit as (nn & st & Hit & -> & -> & ->).
  apply iterate_progress in Hit
    as (cands & cur & Hh & Hlen & Hnp & Hev & Hpy & Hsc & Hcs & Hcur & Hl1
          & Hlab & Hham & Hloc & Hall).
  rewrite Nat.min_id in *.
  exists s0, cands, cur. rewrite Hsc. repeat split; auto; lia.
Qed.

(** An iteration returns in every state of the invariant when the global
    temperature is bound and not negative and the evaluator returns on
    lists of the solution's length. *)
Lemma loop_body_returns num_steps num_nodes graph st k m t0 cur :
  init_temperature G = Some t0 -> (0 <= t0)%R ->
  (0 <= k < num_steps)%Z ->
  0 < num_nodes ->
  heap m !! curr_solution st = Some cur ->
  length cur = num_nodes ->
  Forall is_label cur ->
  (forall v, length v = num_nodes -> Forall is_label v ->
             exists s, obj_maxcut v graph = Ok s) ->
  exists st' m',
    loop_body G gen num_steps num_nodes graph st k m = Ok (st', m') /\
    exists cur', heap m' !! curr_solution st' = Some cur' /\
                 length cur' = num_nodes /\ Forall is_label cur'.
Proof.
  intros Hg Ht Hk Hpos Hcur Hlen Hlab Hev.
  assert (Hidx : drawn_index gen num_nodes (np_pos m) < length cur).
  { unfold drawn_index. rewrite Hlen. apply Nat.mod_upper_bound. lia. }
  assert (Hn : IZR num_steps <> 0%R) by (apply not_0_IZR; lia).
  destruct (Hev (flipped cur (drawn_index gen num_nodes (np_pos m))))
    as [sc Hsc];
    [rewrite flipped_length; exact Hlen | apply flipped_labels, Hlab|].
  assert (Htemp : (t0 * (1 - IZR (k + 1) / IZR num_steps) + eps <> 0)%R).
  { pose proof (temperature_nonneg t0 num_steps k Ht Hk).
    pose proof eps_pos. lra. }
  assert (Hlook : forall c,
             (heap m ++ [c]) !! curr_solution st = Some cur).
  { intros c. rewrite lookup_app_l by (eapply lookup_lt_Some; exact Hcur).
    exact Hcur. }
  destruct (Rlt_dec (curr_score st - sc) 0) as [Hd|Hd].
  { rewrite (loop_body_improving G gen num_steps num_nodes graph st k m
               t0 cur sc Hg Hn Hcur Hpos Hidx Hsc Hd).
    do 2 eexists. split; [reflexivity|].
    cbn [accepted curr_solution heap]. rewrite lookup_last.
    eexists. split; [reflexivity|]. rewrite flipped_length.
    split; [exact Hlen | apply flipped_labels, Hlab]. }
  apply Rnot_lt_le in Hd.
  destruct (Rgt_dec (exp (- (curr_score st - sc)
                          / (t0 * (1 - IZR (k + 1) / IZR num_steps) + eps)))
                    (uval (py_stream gen (py_pos m)))) as [Hp|Hp].
  - rewrite (loop_body_metropolis G gen num_steps num_nodes graph st k m
               t0 cur sc Hg Hn Hcur Hpos Hidx Hsc Hd Htemp Hp).
    do 2 eexists. split; [reflexivity|].
    cbn [accepted drew curr_solution heap]. rewrite lookup_last.
    eexists. split; [reflexivity|]. rewrite flipped_length.
    split; [exact Hlen | apply flipped_labels, Hlab].
  - apply Rnot_gt_le in Hp.
    rewrite (loop_body_rejecting G gen num_steps num_nodes graph st k m
               t0 cur sc Hg Hn Hcur Hpos Hidx Hsc Hd Htemp Hp).
    do 2 eexists. split; [reflexivity|].
    cbn [kept drew curr_solution heap]. rewrite Hlook. eauto.
Qed.

End Progress.

(** ** Runs that return, and exceptions that cannot occur *)

Lemma init_solution_nonempty graph :
  2 <= number_of_nodes graph -> 0 < length (init_solution graph).
Proof.
  intros H. rewrite init_solution_length.
  pose proof (Nat.div_le_lower_bound (number_of_nodes graph) 2 1).
  lia.
Qed.

Lemma obj_maxcut_wf_errors solution graph e :
  graph_wf graph -> obj_maxcut solution graph = Raise e ->
  e = DimensionMismatch.
Proof.
  intros Hwf H.
  destruct (Nat.eq_dec (length solution) (nodeCount graph)) as [Hlen|Hlen].
  - destruct (obj_maxcut_total solution graph Hwf Hlen) as [s Hs].
    rewrite Hs in H. discriminate.
  - unfold obj_maxcut in H.
    destruct (Nat.eqb_spec (length solution) (nodeCount graph));
      [contradiction|]. injection H as <-. reflexivity.
Qed.

Lemma cycle4_wf : graph_wf cycle4.
Proof. unfold graph_wf, cycle4. cbn. repeat constructor; cbn; lia. Qed.

Lemma cycle4_evaluates (v : list Z) :
  length v = length (init_solution cycle4) -> Forall is_label v ->
  exists s, obj_maxcut v cycle4 = Ok s.
Proof. intros Hlen _. apply obj_maxcut_total; [apply cycle4_wf | exact Hlen]. Qed.

(** A call returns under the conditions stated below for [G] binding
    [init_temperature] to a non-negative value. *)
Lemma simulated_annealing_returns_aux gen a num_steps graph m :
  2 <= number_of_nodes graph ->
  (forall v, length v = length (init_solution graph) -> Forall is_label v ->
             exists s, obj_maxcut v graph = Ok s) ->
  forall G t0,
    init_temperature G = Some t0 -> (0 <= t0)%R ->
    exists score sol trace m',
      simulated_annealing G gen a num_steps graph m
        = Ok (score, sol, trace, m').
Proof.
  intros Hn Hev G t0 Hg Ht.
  rewrite simulated_annealing_eq.
  destruct (Hev (init_solution graph) eq_refl (init_solution_labels graph))
    as [s0 ->].
  set (nn := length (init_solution graph)).
  destruct (for_each_total
              (fun st mm => exists cur,
                   heap mm !! curr_solution st = Some cur /\
                   length cur = nn /\ Forall is_label cur)
              (loop_body G gen num_steps nn graph) (range num_steps)) with
      (s := Locals (S (length (heap m))) s0 [])
      (m := Machine ((heap m ++ [init_solution graph]) ++ [init_solution graph])
                    (np_pos m) (py_pos m) (S (evals m)))
    as (st & m' & ->).
  - intros s k m1 Hin (cur & Hcur & Hlen & Hlab).
    apply (loop_body_returns G gen num_steps nn graph s k m1 t0 cur); auto.
    + apply range_In, Hin.
    + apply init_solution_nonempty, Hn.
  - exists (init_solution graph). cbn [heap curr_solution].
    rewrite lookup_last2. auto using init_solution_labels.
  - eauto.
Qed.

(** X1.  A call returns, for every [num_steps] and from every state of the
    generators and the heap, when the module-level [init_temperature] is
    bound to a non-negative value, the graph has at least two nodes and
    [obj_maxcut] returns on the label lists of the initial solution's
    length. *)
Theorem simulated_annealing_returns G gen a num_steps graph m t0 :
  init_temperature G = Some t0 ->
  (0 <= t0)%R ->
  2 <= number_of_nodes graph ->
  (forall v, length v = length (init_solution graph) -> Forall is_label v ->
             exists s, obj_maxcut v graph = Ok s) ->
  exists score sol trace m',
    simulated_annealing G gen a num_steps graph m = Ok (score, sol, trace, m').
Proof.
  intros Hg Ht Hn Hev.
  exact (simulated_annealing_returns_aux gen a num_steps graph m Hn Hev
           G t0 Hg Ht).
Qed.

Lemma simulated_annealing_returns_witness :
  exists score sol trace m',
    simulated_annealing G4 gen_count 4 5 cycle4 fresh
      = Ok (score, sol, trace, m').
Proof.
  apply (simulated_annealing_returns G4 gen_count 4%R 5 cycle4 fresh 4%R).
  - reflexivity.
  - lra.
  - cbn. lia.
  - exact cycle4_evaluates.
Defined.

(** X2.  When the module-level [init_temperature] is not negative, no call
    raises [ZeroDivisionError], whatever the graph, the number of steps and
    the draws: the divisor [num_steps] is positive inside the loop and the
    divisor [temperature + 1e-6] is at least [1e-6]. *)
Theorem never_zero_division G gen a num_steps graph m :
  (forall t0, init_temperature G = Some t0 -> (0 <= t0)%R) ->
  simulated_annealing G gen a num_steps graph m <> Raise ZeroDivisionError.
Proof.
  intros Hg H.
  apply simulated_annealing_Raise_inv in H
    as [H|(st & k & m1 & cur & Hk & _ & _ & H)].
  - apply obj_maxcut_errors in H. destruct H; discriminate.
  - unfold step_summary in H.
    destruct (init_temperature G) as [t0|] eqn:Ht0; [|discriminate].
    destruct (Req_EM_T (IZR num_steps) 0) as [Hn|_];
      [apply eq_IZR in Hn; lia|].
    destruct (Nat.eqb _ 0); [discriminate|].
    destruct (Nat.ltb _ _); [|discriminate].
    destruct (obj_maxcut _ graph) as [sc|e] eqn:He.
    + destruct (Rlt_dec _ 0); [discriminate|].
      destruct (Req_EM_T _ 0) as [Hz|_].
      * pose proof (temperature_nonneg t0 num_steps k (Hg t0 eq_refl) Hk).
        pose proof eps_pos. lra.
      * destruct (Rgt_dec _ _); discriminate.
    + injection H as ->. apply obj_maxcut_errors in He.
      destruct He; discriminate.
Qed.

(** [never_zero_division] on the 4-cycle, for the run of one step in which
    both divisions are carried out (the tie goes through
    [- delta_e / (temperature + 1e-6)] at temperature 0), and for a run of
    five steps. *)
Lemma never_zero_division_witness :
  simulated_annealing G4 gen_zero 4 1 cycle4 fresh <> Raise ZeroDivisionError /\
  simulated_annealing G4 gen_count 4 5 cycle4 fresh <> Raise ZeroDivisionError.
Proof.
  split.
  - apply (never_zero_division G4 gen_zero 4%R 1 cycle4 fresh).
    intros t0 [= <-]. lra.
  - apply (never_zero_division G4 gen_count 4%R 5 cycle4 fresh).
    intros t0 [= <-]. lra.
Defined.

(** X3.  The index drawn by [np.random.randint(0, num_nodes)] is always a
    position of the copied list: a call raises [IndexError] only if
    [obj_maxcut] does. *)
Theorem indexing_in_bounds G gen a num_steps graph m :
  (forall v, obj_maxcut v graph <> Raise IndexError) ->
  simulated_annealing G gen a num_steps graph m <> Raise IndexError.
Proof.
  intros Hev H.
  apply simulated_annealing_Raise_inv in H
    as [H|(st & k & m1 & cur & Hk & _ & Hlen & H)].
  - exact (Hev _ H).
  - unfold step_summary in H.
    destruct (init_temperature G) as [t0|]; [|discriminate].
    destruct (Req_EM_T (IZR num_steps) 0); [discriminate|].
    destruct (Nat.eqb_spec (length (init_solution graph)) 0) as [|Hnn];
      [discriminate|].
    destruct (Nat.ltb_spec
                (drawn_index gen (length (init_solution graph)) (np_pos m1))
                (length cur)) as [_|Hge].
    + destruct (obj_maxcut _ graph) as [sc|e] eqn:He.
      * destruct (Rlt_dec _ 0); [discriminate|].
        destruct (Req_EM_T _ 0); [discriminate|].
        destruct (Rgt_dec _ _); discriminate.
      * injection H as ->. exact (Hev _ He).
    + unfold drawn_index in Hge. rewrite Hlen in Hge.
      pose proof (Nat.mod_upper_bound (np_stream gen (np_pos m1))
                    (length (init_solution graph)) Hnn). lia.
Qed.

Lemma indexing_in_bounds_witness :
  simulated_annealing G4 gen_count 4 5 cycle4 fresh <> Raise IndexError.
Proof.
  apply (indexing_in_bounds G4 gen_count 4%R 5 cycle4 fresh).
  intros v H. apply (obj_maxcut_wf_errors v cycle4 _ cycle4_wf) in H.
  discriminate.
Defined.

(** ** What a returning call has consumed and allocated *)

(** X4.  A call that returns has drawn exactly one [randint] value per
    entry of the trace, has called [obj_maxcut] once more than that (the
    initial evaluation), has called [random.random()] at most once per
    entry, and has allocated two lists plus one copy per entry. *)
Theorem run_resources G gen a num_steps graph m score sol trace m' :
  simulated_annealing G gen a num_steps graph m = Ok (score, sol, trace, m') ->
  np_pos m' = np_pos m + length trace /\
  evals m' = evals m + 1 + length trace /\
  py_pos m <= py_pos m' <= py_pos m + length trace /\
  length (heap m') = length (heap m) + 2 + length trace.
Proof.
  intros H. apply run_progress in H
    as (s0 & cands & cur & _ & _ & Hh & Hlen & Hnp & Hev & Hpy & _).
  repeat split; try lia.
  rewrite Hh, !length_app. cbn [length]. lia.
Qed.

Lemma run_resources_witness :
  np_pos m_cycle4' = np_pos fresh + length [2%R] /\
  evals m_cycle4' = evals fresh + 1 + length [2%R] /\
  py_pos fresh <= py_pos m_cycle4' <= py_pos fresh + length [2%R] /\
  length (heap m_cycle4') = length (heap fresh) + 2 + length [2%R].
Proof.
  exact (run_resources G4 gen_zero 4%R 1 cycle4 fresh 2%R 2 [2%R] m_cycle4'
           run_cycle4).
Defined.

(** X5.  A call that returns has left every list that existed before it
    as it was; the list bound to [init_solution] still holds the initial
    bipartition, and the returned solution is another, later object. *)
Theorem run_frame G gen a num_steps graph m score sol trace m' :
  simulated_annealing G gen a num_steps graph m = Ok (score, sol, trace, m') ->
  (forall l v, heap m !! l = Some v -> heap m' !! l = Some v) /\
  heap m' !! length (heap m) = Some (init_solution graph) /\
  length (heap m) < sol.
Proof.
  intros H. apply run_progress in H
    as (s0 & cands & cur & _ & _ & Hh & _ & _ & _ & _ & _ & _ & _ & _ & _
          & Hloc & _).
  repeat split; [| |exact Hloc].
  - intros l v Hl. rewrite Hh, <- !app_assoc.
    rewrite lookup_app_l by (eapply lookup_lt_Some; exact Hl). exact Hl.
  - rewrite Hh. rewrite lookup_app_l by (rewrite !length_snoc; lia).
    apply lookup_last1.
Qed.

Lemma run_frame_witness :
  (forall l v, heap m_cycle4' !! l = Some v -> heap m_again' !! l = Some v) /\
  heap m_again' !! length (heap m_cycle4') = Some (init_solution cycle4) /\
  length (heap m_cycle4') < 5.
Proof.
  exact (run_frame G4 gen_count 4%R 1 cycle4 m_cycle4' 2%R 5 [2%R] m_again'
           run_again).
Defined.

(** ** What a returning call returns *)

(** X6.  The score returned by [temperature_decay] is the initial score or
    one of the scores of the trace; with an empty trace it is the initial
    score. *)
Theorem final_score_in_trace G gen num_steps graph m
    trace init_score score sol m' :
  temperature_decay G gen num_steps graph m
    = Ok (trace, init_score, score, sol, m') ->
  (score = init_score \/ In score trace) /\
  (trace = [] -> score = init_score).
Proof.
  intros H. apply temperature_decay_Ok_inv in H as (nn & st & Hit & -> & -> & ->).
  apply iterate_progress in Hit
    as (cands & cur & _ & _ & _ & _ & _ & _ & Hcs & _).
  split; [exact Hcs|].
  intros Hnil. rewrite Hnil in Hcs. destruct Hcs as [Hcs|[]]. exact Hcs.
Qed.

Lemma temperature_decay_cycle4_0 :
  temperature_decay G4 gen_zero 0 cycle4 fresh
    = Ok ([], 2%R, 2%R, 1, m_cycle4).
Proof.
  apply (temperature_decay_no_steps G4 gen_zero 0 cycle4 fresh 2%R);
    [lia | exact obj_cycle4_init].
Qed.

Lemma final_score_in_trace_witness :
  (curr_score st_cycle4' = 2%R \/ In (curr_score st_cycle4') [2%R]) /\
  curr_score st_cycle4 = 2%R.
Proof.
  split.
  - exact (proj1 (final_score_in_trace G4 gen_zero 1 cycle4 fresh [2%R] 2%R
                    (curr_score st_cycle4') 2 m_cycle4'
                    temperature_decay_cycle4)).
  - exact (proj2 (final_score_in_trace G4 gen_zero 0 cycle4 fresh [] 2%R
                    (curr_score st_cycle4) 1 m_cycle4
                    temperature_decay_cycle4_0) eq_refl).
Defined.

(** X7.  The solution returned by a call has the length of the initial
    solution, [2 * (N / 2)], all its labels are 0 or 1, and it differs
    from the initial solution in at most as many positions as the trace
    has entries. *)
Theorem returned_solution_shape G gen a num_steps graph m
    score sol trace m' :
  simulated_annealing G gen a num_steps graph m = Ok (score, sol, trace, m') ->
  exists v,
    heap m' !! sol = Some v /\
    length v = 2 * (number_of_nodes graph / 2) /\
    Forall is_label v /\
    hamming (init_solution graph) v <= length trace.
Proof.
  intros H. apply run_progress in H
    as (s0 & cands & cur & _ & _ & _ & _ & _ & _ & _ & _ & Hcur & Hlen & Hlab
          & Hham & _).
  exists cur. rewrite <- init_solution_length. auto.
Qed.

Lemma returned_solution_shape_witness :
  exists v,
    heap m_cycle4' !! 2 = Some v /\
    length v = 2 * (number_of_nodes cycle4 / 2) /\
    Forall is_label v /\
    hamming (init_solution cycle4) v <= length [2%R].
Proof.
  exact (returned_solution_shape G4 gen_zero 4%R 1 cycle4 fresh 2%R 2 [2%R]
           m_cycle4' run_cycle4).
Defined.

(** X8.  Every entry of the returned trace is the value of [obj_maxcut] on
    the candidate built in its iteration: entry [i] is the objective of
    the [i]-th list copied by the call, which is still in the heap and has
    the length of the initial solution. *)
Theorem trace_faithful G gen a num_steps graph m score sol trace m' :
  simulated_annealing G gen a num_steps graph m = Ok (score, sol, trace, m') ->
  forall i s,
    trace !! i = Some s ->
    exists cand,
      heap m' !! (length (heap m) + 2 + i) = Some cand /\
      obj_maxcut cand graph = Ok s /\
      length cand = length (init_solution graph).
Proof.
  intros H i s Hs. apply run_progress in H
    as (s0 & cands & cur & _ & _ & Hh & _ & _ & _ & _ & _ & _ & _ & _ & _ & _
          & Hall).
  destruct (Forall2_lookup_r _ _ _ _ _ Hall Hs) as (cand & Hc & Hobj & Hlen).
  exists cand. split; [|auto].
  rewrite Hh. rewrite lookup_app_r by (rewrite !length_snoc; lia).
  rewrite !length_snoc.
  replace (length (heap m) + 2 + i - S (S (length (heap m)))) with i by lia.
  exact Hc.
Qed.

Lemma trace_faithful_witness :
  exists cand,
    heap m_cycle4' !! (length (heap fresh) + 2 + 0) = Some cand /\
    obj_maxcut cand cycle4 = Ok 2%R /\
    length cand = length (init_solution cycle4).
Proof.
  apply (trace_faithful G4 gen_zero 4%R 1 cycle4 fresh 2%R 2 [2%R] m_cycle4'
           run_cycle4 0 2%R).
  reflexivity.
Defined.

(** ** The schedule and the acceptance test *)

Lemma exp_le_mono (x y : R) : (x <= y)%R -> (exp x <= exp y)%R.
Proof.
  intros [H| ->]; [apply Rlt_le, exp_increasing, H | apply Rle_refl].
Qed.



(** X10.  The acceptance test is monotone: if a candidate of score [sc] is
    accepted at temperature [temp], then against the same draw every
    candidate of score at least [sc] is accepted at every temperature at
    least [temp] (for [temp + 1e-6 > 0]). *)
Theorem acceptance_monotone gen temp temp' new_solution sc sc' st m m1 :
  (0 < temp + eps)%R ->
  (temp <= temp')%R ->
  (sc <= sc')%R ->
  accept gen temp new_solution sc st m = Ok (accepted new_solution sc st, m1) ->
  exists m2,
    accept gen temp' new_solution sc' st m
      = Ok (accepted new_solution sc' st, m2).
Proof.
  intros Ht Htt Hsc H.
  destruct (Rlt_dec (curr_score st - sc') 0) as [Hd'|Hd'].
  { exists m. apply accept_improving, Hd'. }
  apply Rnot_lt_le in Hd'.
  exists (drew m). apply accept_metropolis; [exact Hd' | lra |].
  pose proof (uval_range (py_stream gen (py_pos m))) as Hu.
  apply accept_Ok_inv in H
    as [(Hlt & _)|(Hd & _ & _ & [(Hgt & _)|(_ & Heq)])]; [lra| |].
  - eapply Rlt_le_trans; [exact Hgt|]. apply exp_le_mono.
    assert (H1 : (0 < / (temp + eps))%R) by (apply Rinv_0_lt_compat, Ht).
    assert (H2 : (0 < / (temp' + eps))%R) by (apply Rinv_0_lt_compat; lra).
    assert (H3 : (/ (temp' + eps) <= / (temp + eps))%R)
      by (apply Rinv_le_contravar; lra).
    unfold Rdiv. nra.
  - unfold accepted, kept in Heq. injection Heq as _ Heq.
    assert (Hz : (curr_score st - sc' = 0)%R) by lra.
    rewrite Hz. unfold Rdiv. rewrite Ropp_0, Rmult_0_l, exp_0. lra.
Qed.

Lemma acceptance_monotone_witness :
  exists m2,
    accept gen_zero 3 2 2 st_cycle4 m_cycle4
      = Ok (accepted 2 2 st_cycle4, m2).
Proof.
  apply (acceptance_monotone gen_zero 0 3 2 2 2 st_cycle4 m_cycle4
           (drew m_cycle4)).
  - pose proof eps_pos. lra.
  - lra.
  - lra.
  - apply accept_metropolis.
    + cbn. lra.
    + pose proof eps_pos. lra.
    + cbn [curr_score st_cycle4 py_stream gen_zero uval half].
      replace (- (2 - 2) / (0 + eps))%R with 0%R by (unfold Rdiv; lra).
      rewrite exp_0. lra.
Defined.

(** ** The [__main__] cell *)

(** X11.  The call made by the [__main__] cell, where the module-level
    [init_temperature] and the argument are both 4 and [num_steps] is
    2000, returns for every graph of at least two nodes on which
    [obj_maxcut] returns: its trace has 2000 entries, it has drawn 2000
    indices and made 2001 evaluations, and the returned score is the
    objective of the returned solution. *)
Theorem main_run gen graph m :
  2 <= number_of_nodes graph ->
  (forall v, length v = length (init_solution graph) -> Forall is_label v ->
             exists s, obj_maxcut v graph = Ok s) ->
  exists score sol trace m' v,
    main gen graph m = Ok (score, sol, trace, m') /\
    length trace = 2000 /\
    np_pos m' = np_pos m + 2000 /\
    evals m' = evals m + 2001 /\
    heap m' !! sol = Some v /\
    obj_maxcut v graph = Ok score.
Proof.
  intros Hn Hev. unfold main.
  destruct (simulated_annealing_returns_aux gen 4%R 2000 graph m Hn Hev
              (Globals (Some 4%R)) 4%R eq_refl ltac:(lra))
    as (score & sol & trace & m' & H).
  exists score, sol, trace, m'.
  pose proof (run_progress _ _ _ _ _ _ _ _ _ _ H)
    as (s0 & cands & cur & _ & Hlen & _ & _ & Hnp & Hevals & _).
  apply simulated_annealing_Ok_inv in H as Htd. destruct Htd as (s0' & Htd).
  apply temperature_decay_Ok_inv in Htd as (nn & st & Hit & _ & -> & ->).
  apply iterate_Inv in Hit as (_ & v & Hv & _ & _ & Hobj).
  exists v. change (Z.to_nat 2000) with 2000 in Hlen.
  rewrite Hlen in Hnp, Hevals.
  repeat split; auto; lia.
Qed.

Lemma main_run_witness :
  exists score sol trace m' v,
    main gen_count cycle4 fresh = Ok (score, sol, trace, m') /\
    length trace = 2000 /\
    np_pos m' = np_pos fresh + 2000 /\
    evals m' = evals fresh + 2001 /\
    heap m' !! sol = Some v /\
    obj_maxcut v cycle4 = Ok score.
Proof.
  apply (main_run gen_count cycle4 fresh).
  - cbn. lia.
  - exact cycle4_evaluates.
Defined.
